(** * ssi-service: key lifecycle, DID method registry, DID resolution bridge

    A shallow embedding of the Go sources
      - [pkg/service/did] (the DID service and its method registry),
      - [internal/did/access.go] (resolution of a DID to a key, token
        verification),
      - [integration/common.go] (the HTTP helpers of the integration tests),
      - the key store service exercised by [keystore] tests.

    Go values are modelled as follows.  An interface or pointer value that may
    be [nil] is an [option]; a Go multiple return [(v, err)] is a pair; a Go
    [map] is a [gmap]; a nil dereference is the outcome [Panics]. *)

From Stdlib Require Import ZArith NArith Lia List Ascii String.
From Stdlib.Strings Require Import Byte.
From stdpp Require Import base option strings pretty gmap list.

Local Open Scope string_scope.
#[local] Set Warnings "-clear-no-such-hyp".

(** ** Go errors ([errors], [fmt.Errorf], [github.com/pkg/errors]) *)

Module errors.

(** A non-nil [error] value.  [New] is what [errors.New] and [fmt.Errorf]
    build once the format is expanded; [withMessage] is what [errors.Wrap] and
    [errors.Wrapf] build around a cause. *)
Inductive error : Type :=
| New (msg : string)
| withMessage (cause : error) (msg : string).

(** [err.Error()]: a wrapped error prints as ["msg: cause"]. *)
Fixpoint Error (e : error) : string :=
  match e with
  | New msg => msg
  | withMessage cause msg => msg +:+ ": " +:+ Error cause
  end.

(** [errors.Wrap(err, msg)] for a non-nil [err]. *)
Definition Wrap (err : error) (msg : string) : error := withMessage err msg.

(** [errors.Wrapf(err, format, args...)], the format already expanded. *)
Definition Wrapf (err : error) (msg : string) : error := withMessage err msg.

End errors.

(** ** [pkg/service/framework]: the status a service reports

    The package's declarations are in files that are missing; [Status] and
    its two states are taken as the DID service builds them. *)

Module framework.

Inductive StatusState : Type := StatusReady | StatusNotReady.

Record Status : Type := mkStatus { State : StatusState; Message : string }.

End framework.

(** ** [pkg/service/did]: the DID service *)

Module did.
Import errors.

(** [type Method string] and its one constant. *)
Definition Method : Type := string.
Definition KeyMethod : Method := "key".

Section Service.

(** [didstorage.Storage], a [MethodHandler] implementation, [*log.Logger] and
    [storage.ServiceStorage]: the service only passes these values around. *)
Context {Storage MethodHandler Logger ServiceStorage : Type}.

(** [didstorage.NewDIDStorage] and [NewKeyDIDHandler] live in other files of
    the package; they are taken as they are called, returning Go's
    [(value, error)]. *)
Variable NewDIDStorage : ServiceStorage -> option Storage * option error.
Variable NewKeyDIDHandler : option Storage -> option MethodHandler * option error.

(** [type Service struct { handlers; storage; log }].  [handlers] is never
    written before [make], so a nil map and an empty map read alike. *)
Record Service : Type := mkService {
  handlers : gmap Method (option MethodHandler);
  storage : option Storage;
  log : option Logger
}.

(** [func (s Service) Status() framework.Status].  The receiver is a value and
    the body assigns nothing: the service comes back as it went in. *)
Definition Status (s : Service) : framework.Status * Service :=
  if bool_decide (storage s = None) || (size (handlers s) =? 0)%nat
  then (framework.mkStatus framework.StatusNotReady
          "storage not loaded and/or no DID methods loaded", s)
  else (framework.mkStatus framework.StatusReady "", s).

(** [func (s Service) GetSupportedMethods() []Method]: the keys of [handlers]
    in the order the map yields them. *)
Definition GetSupportedMethods (s : Service) : list Method :=
  (map_to_list (handlers s)).*1.

(** [func (s Service) GetHandler(method Method) (MethodHandler, error)]. *)
Definition GetHandler (s : Service) (method : Method)
  : option MethodHandler * option error :=
  match handlers s !! method with
  | None => (None, Some (New ("could not get handler for DID method: " +:+ method)))
  | Some handler => (handler, None)
  end.

(** [func (s *Service) instantiateHandlerForMethod(method Method) error]: the
    pointer receiver is the service threaded through. *)
Definition instantiateHandlerForMethod (method : Method) (s : Service)
  : option error * Service :=
  if String.eqb method KeyMethod then
    match NewKeyDIDHandler (storage s) with
    | (_, Some _) =>
        (Some (New ("could not instnatiate did:" +:+ KeyMethod +:+ " handler")), s)
    | (handler, None) =>
        (None, mkService (<[method := handler]> (handlers s)) (storage s) (log s))
    end
  else (Some (New ("unsupported DID method: " +:+ method)), s).

(** The [for _, m := range methods] loop of [NewDIDService]: it stops at the
    first method whose handler cannot be instantiated. *)
Fixpoint instantiateAll (methods : list Method) (svc : Service)
  : option error * Service :=
  match methods with
  | [] => (None, svc)
  | m :: rest =>
      match instantiateHandlerForMethod m svc with
      | (Some err, svc') => (Some (Wrap err "could not instantiate DID svc"), svc')
      | (None, svc') => instantiateAll rest svc'
      end
  end.

(** [func NewDIDService(log, methods, s)], returning [*Service] and [error].  The [log]
    argument is not stored: the literal sets [storage] and [handlers] only. *)
Definition NewDIDService (lg : option Logger) (methods : list Method)
    (s : ServiceStorage) : option Service * option error :=
  match NewDIDStorage s with
  | (_, Some err) =>
      (None, Some (Wrap err "could not instantiate DID storage for DID service"))
  | (didStorage, None) =>
      let svc := mkService ∅ didStorage None in
      match instantiateAll methods svc with
      | (Some err, _) => (None, Some err)
      | (None, svc') => (Some svc', None)
      end
  end.

(** *** Properties of the registry *)

Lemma instantiateHandlerForMethod_unsupported method s :
  method ≠ KeyMethod →
  instantiateHandlerForMethod method s
  = (Some (New ("unsupported DID method: " +:+ method)), s).
Proof.
  intros Hne. unfold instantiateHandlerForMethod.
  destruct (String.eqb_spec method KeyMethod) as [->|_]; [by destruct Hne|done].
Qed.

Lemma instantiateHandlerForMethod_ok method s s' :
  instantiateHandlerForMethod method s = (None, s') →
  method = KeyMethod ∧ storage s' = storage s ∧ log s' = log s ∧
  ∃ handler, NewKeyDIDHandler (storage s) = (handler, None) ∧
             handlers s' = <[method := handler]> (handlers s).
Proof.
  unfold instantiateHandlerForMethod.
  destruct (String.eqb_spec method KeyMethod) as [->|_]; [|discriminate].
  destruct (NewKeyDIDHandler (storage s)) as [handler [err|]]; [discriminate|].
  intros [= <-]; simpl. eauto 6.
Qed.

(** The loop stops with an error as soon as it meets an unsupported name. *)
Lemma instantiateAll_unsupported methods svc :
  (∃ m, m ∈ methods ∧ m ≠ KeyMethod) →
  ∃ err svc', instantiateAll methods svc = (Some err, svc').
Proof.
  revert svc. induction methods as [|m rest IH]; intros svc (m' & Hin & Hne).
  - by apply elem_of_nil in Hin.
  - simpl. destruct (instantiateHandlerForMethod m svc) as [[err|] svc1] eqn:Hm.
    + eauto.
    + apply instantiateHandlerForMethod_ok in Hm as (-> & _).
      apply elem_of_cons in Hin as [->|Hin]; [done|]. apply IH; eauto.
Qed.

(** A loop that ends without error registered exactly the names it went
    through, and left [storage] alone. *)
Lemma instantiateAll_ok methods svc svc' :
  instantiateAll methods svc = (None, svc') →
  storage svc' = storage svc ∧
  dom (handlers svc') = dom (handlers svc) ∪ list_to_set methods ∧
  Forall (λ m, m = KeyMethod) methods.
Proof.
  revert svc. induction methods as [|m rest IH]; intros svc; simpl.
  - intros [= <-]. split_and!; [done|set_solver|constructor].
  - destruct (instantiateHandlerForMethod m svc) as [[err|] svc1] eqn:Hm;
      [discriminate|].
    intros Hrest. apply IH in Hrest as (Hst & Hdom & Hall).
    apply instantiateHandlerForMethod_ok in Hm
      as (Hkey & Hst1 & _ & handler & _ & Hh).
    split_and!.
    + congruence.
    + rewrite Hdom, Hh, dom_insert_L. set_solver.
    + by constructor.
Qed.

Lemma elem_of_GetSupportedMethods (s : Service) m :
  m ∈ GetSupportedMethods s ↔ m ∈ dom (handlers s).
Proof.
  unfold GetSupportedMethods. rewrite elem_of_dom, list_elem_of_fmap. split.
  - intros ([k h] & -> & Hin). apply elem_of_map_to_list in Hin. by exists h.
  - intros [h Hh]. exists (m, h). split; [done|]. by apply elem_of_map_to_list.
Qed.

Lemma NoDup_GetSupportedMethods (s : Service) : NoDup (GetSupportedMethods s).
Proof. apply NoDup_fst_map_to_list. Qed.

(** C5: a method list that holds a name other than ["key"] makes
    [NewDIDService] fail as a whole: it returns a nil service together with a
    non-nil error, whatever the storage and the handler constructors do. *)
Theorem NewDIDService_unsupported_fails lg methods s :
  (∃ m, m ∈ methods ∧ m ≠ KeyMethod) →
  ∃ err, NewDIDService lg methods s = (None, Some err).
Proof.
  intros Hbad. unfold NewDIDService.
  destruct (NewDIDStorage s) as [didStorage [err|]]; [eauto|].
  destruct (instantiateAll_unsupported methods (mkService ∅ didStorage None) Hbad)
    as (err & svc' & ->).
  eauto.
Qed.

(** C6: when [NewDIDService] succeeds on a list of methods, the methods that
    [GetSupportedMethods] lists on the service it returns are, as a set, the
    requested ones (and the list names each once); every requested method was
    a supported one. *)
Theorem GetSupportedMethods_exact lg methods s svc :
  NewDIDService lg methods s = (Some svc, None) →
  (∀ m, m ∈ GetSupportedMethods svc ↔ m ∈ methods) ∧
  NoDup (GetSupportedMethods svc) ∧
  Forall (λ m, m = KeyMethod) methods.
Proof.
  unfold NewDIDService.
  destruct (NewDIDStorage s) as [didStorage [err|]]; [discriminate|].
  destruct (instantiateAll methods _) as [[err|] svc'] eqn:Hall; [discriminate|].
  intros [= <-]. apply instantiateAll_ok in Hall as (_ & Hdom & Hkey). simpl in Hdom.
  split_and!; [|apply NoDup_GetSupportedMethods|done].
  intros m. rewrite elem_of_GetSupportedMethods, Hdom. set_solver.
Qed.

(** C7: [Status] reports not-ready exactly when the storage is nil or no
    handler is registered, reports ready otherwise, and hands the service back
    unchanged. *)
Theorem Status_NotReady_iff (s : Service) :
  (framework.State (Status s).1 = framework.StatusNotReady
     ↔ storage s = None ∨ size (handlers s) = 0%nat) ∧
  (framework.State (Status s).1 = framework.StatusReady
     ↔ ¬ (storage s = None ∨ size (handlers s) = 0%nat)) ∧
  (Status s).2 = s.
Proof.
  unfold Status.
  destruct (bool_decide (storage s = None)) eqn:Hst;
    [apply bool_decide_eq_true in Hst | apply bool_decide_eq_false in Hst];
    destruct (Nat.eqb_spec (size (handlers s)) 0) as [Hsz|Hsz]; simpl;
    (split_and!; [split; [auto|] | split; [|] | reflexivity]);
    try discriminate; try tauto; auto.
Qed.

(** *** Construction, end to end *)

(** A list of ["key"]s registers the one handler, however long the list. *)
Lemma instantiateAll_all_key methods svc h :
  Forall (λ m, m = KeyMethod) methods →
  NewKeyDIDHandler (storage svc) = (h, None) →
  instantiateAll methods svc
  = (None, match methods with
           | [] => svc
           | _ :: _ => mkService (<[KeyMethod := h]> (handlers svc)) (storage svc) (log svc)
           end).
Proof.
  intros Hall. revert svc. induction Hall as [|m rest -> _ IH]; intros svc Hh; [done|].
  cbn [instantiateAll]. unfold instantiateHandlerForMethod at 1.
  rewrite String.eqb_refl, Hh. rewrite IH by done. cbn [handlers storage log].
  destruct rest; [done|]. by rewrite insert_insert_eq.
Qed.

(** What a successful construction went through, and the service it built:
    the logger is not in it. *)
Lemma NewDIDService_inv lg methods s svc :
  NewDIDService lg methods s = (Some svc, None) →
  ∃ st, NewDIDStorage s = (st, None) ∧
    ((methods = [] ∧ svc = mkService ∅ st None) ∨
     (methods ≠ [] ∧ Forall (λ m, m = KeyMethod) methods ∧
      ∃ h, NewKeyDIDHandler st = (h, None) ∧
           svc = mkService {[KeyMethod := h]} st None)).
Proof.
  unfold NewDIDService.
  destruct (NewDIDStorage s) as [st [err|]]; [discriminate|].
  destruct (instantiateAll methods _) as [[err|] svc'] eqn:Hall; [discriminate|].
  intros [= <-]. exists st. split; [done|].
  destruct methods as [|m rest]; [left; by injection Hall as <-|right].
  split; [done|].
  pose proof (instantiateAll_ok _ _ _ Hall) as (_ & _ & Hkey). split; [done|].
  destruct (NewKeyDIDHandler st) as [h [cause|]] eqn:Hh.
  - exfalso. apply Forall_cons in Hkey as [-> _].
    cbn [instantiateAll] in Hall. unfold instantiateHandlerForMethod in Hall.
    cbn [storage] in Hall. by rewrite String.eqb_refl, Hh in Hall.
  - exists h. split; [done|].
    rewrite (instantiateAll_all_key _ (mkService ∅ st None) h Hkey Hh) in Hall.
    injection Hall as <-. cbn [handlers storage log]. by rewrite insert_empty.
Qed.

(** [NewDIDService] succeeds exactly when the storage is built and, for a
    request that is not empty, every requested method is ["key"] and its
    handler is built.  The service then holds that storage, the one handler
    under ["key"] (no handler for an empty request) and a nil logger,
    whichever logger was passed. *)
Theorem NewDIDService_success_iff lg methods s svc :
  NewDIDService lg methods s = (Some svc, None) ↔
  ∃ st, NewDIDStorage s = (st, None) ∧
    ((methods = [] ∧ svc = mkService ∅ st None) ∨
     (methods ≠ [] ∧ Forall (λ m, m = KeyMethod) methods ∧
      ∃ h, NewKeyDIDHandler st = (h, None) ∧
           svc = mkService {[KeyMethod := h]} st None)).
Proof.
  split; [apply NewDIDService_inv|].
  intros (st & Hst & [[-> ->]|(Hne & Hkey & h & Hh & ->)]); unfold NewDIDService;
    rewrite Hst; [done|].
  rewrite (instantiateAll_all_key methods (mkService ∅ st None) h Hkey Hh).
  destruct methods; [done|]. cbn [handlers storage log]. by rewrite insert_empty.
Qed.

(** A service that was constructed reports ready exactly when the storage it
    was given is not nil and at least one method was requested: an empty
    request constructs a service that is not ready. *)
Theorem NewDIDService_Status lg methods s svc :
  NewDIDService lg methods s = (Some svc, None) →
  (framework.State (Status svc).1 = framework.StatusReady
     ↔ storage svc ≠ None ∧ methods ≠ []) ∧
  (methods = [] → framework.State (Status svc).1 = framework.StatusNotReady).
Proof.
  intros Hnew.
  apply NewDIDService_inv in Hnew as (st & _ & [[-> ->]|(Hne & _ & h & _ & ->)]);
    unfold Status; cbn [storage handlers].
  - rewrite map_size_empty. rewrite orb_true_r. cbn. split; [|done].
    split; [discriminate|by intros [_ ?]].
  - rewrite map_size_singleton. rewrite orb_false_r.
    destruct st as [st|]; cbn; (split; [|done]); split; try done;
      try discriminate; by intros [? _].
Qed.

(** On a service that was constructed, [GetHandler] finds for every requested
    method the handler that [NewKeyDIDHandler] built on the service's
    storage, and answers any other method with a nil handler and the error
    that names it. *)
Theorem NewDIDService_GetHandler lg methods s svc method :
  NewDIDService lg methods s = (Some svc, None) →
  (method ∈ methods →
   ∃ h, NewKeyDIDHandler (storage svc) = (h, None) ∧
        GetHandler svc method = (h, None)) ∧
  (method ∉ methods →
   GetHandler svc method
   = (None, Some (New ("could not get handler for DID method: " +:+ method)))).
Proof.
  intros Hnew.
  apply NewDIDService_inv in Hnew as (st & _ & [[-> ->]|(Hne & Hkey & h & Hh & ->)]);
    unfold GetHandler; cbn [storage handlers].
  - split; [by intros ?%elem_of_nil|]. intros _. by rewrite lookup_empty.
  - rewrite Forall_forall in Hkey. split.
    + intros ->%Hkey. exists h. by rewrite lookup_singleton_eq.
    + intros Hnot. rewrite lookup_singleton_ne; [done|].
      intros <-. destruct methods as [|m rest]; [done|].
      apply Hnot. rewrite (Hkey m) by left. left.
Qed.

(** On a service that was constructed, [GetSupportedMethods] is the empty
    list for an empty request and the list of ["key"] alone otherwise,
    however often the request repeated it. *)
Theorem NewDIDService_GetSupportedMethods lg methods s svc :
  NewDIDService lg methods s = (Some svc, None) →
  GetSupportedMethods svc = match methods with [] => [] | _ :: _ => [KeyMethod] end.
Proof.
  intros Hnew.
  apply NewDIDService_inv in Hnew as (st & _ & [[-> ->]|(Hne & _ & h & _ & ->)]);
    unfold GetSupportedMethods; cbn [handlers].
  - by rewrite map_to_list_empty.
  - rewrite map_to_list_singleton. by destruct methods.
Qed.

(** Which error a failed construction returns.  A storage error comes back
    wrapped.  Otherwise the first method that cannot be registered decides:
    with a handler constructor that works, that is the first requested
    method other than ["key"], and the error names it; with one that fails,
    it is the head of the request, and the constructor's own error is
    dropped from the message. *)
Theorem NewDIDService_first_failure lg methods s :
  (∀ st cause,
     NewDIDStorage s = (st, Some cause) →
     NewDIDService lg methods s
     = (None, Some (Wrap cause "could not instantiate DID storage for DID service"))) ∧
  (∀ st h i m,
     NewDIDStorage s = (st, None) → NewKeyDIDHandler st = (h, None) →
     list_find (λ m, m ≠ KeyMethod) methods = Some (i, m) →
     ∃ err, NewDIDService lg methods s = (None, Some err) ∧
            Error err = "could not instantiate DID svc: unsupported DID method: " +:+ m) ∧
  (∀ st h cause m rest,
     NewDIDStorage s = (st, None) → NewKeyDIDHandler st = (h, Some cause) →
     methods = m :: rest →
     ∃ err, NewDIDService lg methods s = (None, Some err) ∧
            Error err = if String.eqb m KeyMethod
                        then "could not instantiate DID svc: could not instnatiate did:key handler"
                        else "could not instantiate DID svc: unsupported DID method: " +:+ m).
Proof.
  split_and!.
  - intros st cause Hst. unfold NewDIDService. by rewrite Hst.
  - intros st h i m Hst Hh Hfind. unfold NewDIDService. rewrite Hst.
    assert (Hloop : ∀ svc, storage svc = st →
              ∃ svc', instantiateAll methods svc
                      = (Some (Wrap (New ("unsupported DID method: " +:+ m))
                                 "could not instantiate DID svc"), svc')).
    { clear Hst. revert i Hfind.
      induction methods as [|m0 rest IH]; intros i Hfind svc Hsvc; [done|].
      cbn [instantiateAll]. unfold instantiateHandlerForMethod at 1.
      destruct (String.eqb_spec m0 KeyMethod) as [->|Hne].
      - rewrite Hsvc, Hh.
        cbn [list_find] in Hfind.
        destruct (decide (KeyMethod ≠ KeyMethod)) as [?|_]; [done|].
        destruct (list_find _ rest) as [[j m']|] eqn:Hrest; [|done].
        injection Hfind as _ <-. by eapply IH.
      - cbn [list_find] in Hfind.
        destruct (decide (m0 ≠ KeyMethod)) as [_|?]; [|done].
        injection Hfind as _ <-. eauto. }
    destruct (Hloop (mkService ∅ st None) eq_refl) as [svc' ->].
    eexists. split; [done|]. reflexivity.
  - intros st h cause m rest Hst Hh ->. unfold NewDIDService. rewrite Hst.
    cbn [instantiateAll]. unfold instantiateHandlerForMethod. cbn [storage].
    rewrite Hh. destruct (String.eqb m KeyMethod); eexists; (split; [done|]); reflexivity.
Qed.

(** *** The registry on any service *)

(** The three views of the registry agree on every service value:
    [GetHandler] answers without error exactly for the methods that
    [GetSupportedMethods] lists, the list is as long as the map is large, and
    [Status] reports ready exactly when the storage is set and the list is
    not empty. *)
Theorem registry_views_agree (s : Service) :
  (∀ method, method ∈ GetSupportedMethods s ↔ (GetHandler s method).2 = None) ∧
  length (GetSupportedMethods s) = size (handlers s) ∧
  (framework.State (Status s).1 = framework.StatusReady
     ↔ storage s ≠ None ∧ GetSupportedMethods s ≠ []).
Proof.
  split_and!.
  - intros method. rewrite elem_of_GetSupportedMethods, elem_of_dom.
    unfold GetHandler. destruct (handlers s !! method) as [h|]; simpl.
    + split; eauto.
    + split; [by intros [? [=]]|discriminate].
  - unfold GetSupportedMethods. by rewrite length_fmap, length_map_to_list.
  - assert (Hlen : GetSupportedMethods s ≠ [] ↔ size (handlers s) ≠ 0%nat).
    { unfold GetSupportedMethods.
      rewrite <- (length_map_to_list (handlers s)), <- (length_fmap fst).
      by destruct ((map_to_list (handlers s)).*1). }
    rewrite Hlen. unfold Status.
    destruct (storage s) as [st|]; destruct (Nat.eqb_spec (size (handlers s)) 0);
      simpl; split; try done; try discriminate; by intros [? ?].
Qed.

(** [instantiateHandlerForMethod] never touches the storage or the logger.
    When it returns an error the registry is as it was; when it returns nil
    the method was ["key"], the method now has a handler, and no other
    method's handler changed. *)
Theorem instantiateHandlerForMethod_frame method (s : Service) :
  storage (instantiateHandlerForMethod method s).2 = storage s ∧
  log (instantiateHandlerForMethod method s).2 = log s ∧
  (is_Some (instantiateHandlerForMethod method s).1 →
   (instantiateHandlerForMethod method s).2 = s) ∧
  ((instantiateHandlerForMethod method s).1 = None →
   method = KeyMethod ∧
   is_Some (handlers (instantiateHandlerForMethod method s).2 !! method) ∧
   ∀ other, other ≠ method →
     handlers (instantiateHandlerForMethod method s).2 !! other = handlers s !! other).
Proof.
  unfold instantiateHandlerForMethod.
  destruct (String.eqb_spec method KeyMethod) as [->|Hne].
  - destruct (NewKeyDIDHandler (storage s)) as [h [e|]]; cbn.
    + split_and!; done.
    + split_and!; [done|done|by intros [? [=]]|]. intros _. split_and!; [done| |].
      * rewrite lookup_insert_eq. eauto.
      * intros other Hother. by rewrite lookup_insert_ne.
  - cbn. split_and!; done.
Qed.

End Service.

(** *** The registry on a concrete back end

    One storage value, one handler value; both constructors succeed. *)

Definition unitStorage (_ : unit) : option unit * option error := (Some tt, None).
Definition unitHandler (_ : option unit) : option unit * option error := (Some tt, None).

Lemma NewDIDService_unsupported_fails_witness :
  (∃ m, m ∈ ["key"; "web"] ∧ m ≠ KeyMethod) ∧
  ∃ err, NewDIDService unitStorage unitHandler (None : option unit) ["key"; "web"] tt
         = (None, Some err).
Proof.
  assert (H : ∃ m, m ∈ ["key"; "web"] ∧ m ≠ KeyMethod).
  { exists "web". split; [set_solver|discriminate]. }
  split; [exact H|].
  exact (NewDIDService_unsupported_fails unitStorage unitHandler None ["key"; "web"] tt H).
Defined.

Lemma GetSupportedMethods_exact_witness :
  (∀ m, m ∈ GetSupportedMethods
              (mkService (Logger:=unit) {["key" := Some tt]} (Some tt) None)
        ↔ m ∈ ["key"; "key"]) ∧
  NoDup (GetSupportedMethods
           (mkService (Logger:=unit) {["key" := Some tt]} (Some tt) None)) ∧
  Forall (λ m, m = KeyMethod) ["key"; "key"].
Proof.
  apply (GetSupportedMethods_exact unitStorage unitHandler None ["key"; "key"] tt).
  vm_compute. reflexivity.
Defined.

(** A handler constructor that fails, and the service built for an empty
    request. *)
Definition failingHandler (_ : option unit) : option unit * option error :=
  (None, Some (New "storage is not a bolt database")).

Definition emptyService : @Service unit unit unit := mkService ∅ (Some tt) None.

Definition keyService : @Service unit unit unit :=
  mkService {["key" := Some tt]} (Some tt) None.

Lemma NewDIDService_Status_witness :
  (framework.State (Status emptyService).1 = framework.StatusReady
     ↔ storage emptyService ≠ None ∧ ([] : list Method) ≠ []) ∧
  (([] : list Method) = [] →
   framework.State (Status emptyService).1 = framework.StatusNotReady).
Proof.
  apply (NewDIDService_Status unitStorage unitHandler None [] tt emptyService).
  reflexivity.
Defined.

Lemma NewDIDService_GetHandler_witness :
  ("key" ∈ ["key"; "key"] →
   ∃ h, unitHandler (storage keyService) = (h, None) ∧
        GetHandler keyService "key" = (h, None)) ∧
  ("key" ∉ ["key"; "key"] →
   GetHandler keyService "key"
   = (None, Some (New ("could not get handler for DID method: " +:+ "key")))).
Proof.
  apply (NewDIDService_GetHandler unitStorage unitHandler None ["key"; "key"] tt
           keyService "key").
  vm_compute. reflexivity.
Defined.

Lemma NewDIDService_GetSupportedMethods_witness :
  GetSupportedMethods keyService = [KeyMethod].
Proof.
  apply (NewDIDService_GetSupportedMethods unitStorage unitHandler None
           ["key"; "key"; "key"] tt keyService).
  vm_compute. reflexivity.
Defined.

Lemma instantiateHandlerForMethod_frame_witness :
  "key" = KeyMethod ∧
  is_Some (handlers (instantiateHandlerForMethod unitHandler "key" emptyService).2 !! "key") ∧
  ∀ other, other ≠ "key" →
    handlers (instantiateHandlerForMethod unitHandler "key" emptyService).2 !! other
    = handlers emptyService !! other.
Proof.
  apply (instantiateHandlerForMethod_frame unitHandler "key" emptyService).
  reflexivity.
Defined.

(** Three failed constructions: [web] after [key], [ion] before [web] with a
    constructor that fails, and [key] first with that constructor. *)
Lemma NewDIDService_first_failure_witness :
  (∃ err, NewDIDService unitStorage unitHandler (None : option unit)
            ["key"; "web"; "ion"] tt = (None, Some err) ∧
          Error err = "could not instantiate DID svc: unsupported DID method: web") ∧
  (∃ err, NewDIDService unitStorage failingHandler (None : option unit)
            ["ion"; "key"] tt = (None, Some err) ∧
          Error err = "could not instantiate DID svc: unsupported DID method: ion") ∧
  (∃ err, NewDIDService unitStorage failingHandler (None : option unit)
            ["key"; "web"] tt = (None, Some err) ∧
          Error err
          = "could not instantiate DID svc: could not instnatiate did:key handler").
Proof.
  split_and!.
  - apply (NewDIDService_first_failure unitStorage unitHandler None
             ["key"; "web"; "ion"] tt) with (st := Some tt) (h := Some tt) (i := 1%nat);
      reflexivity.
  - apply (NewDIDService_first_failure unitStorage failingHandler None
             ["ion"; "key"] tt) with (st := Some tt) (h := None)
             (cause := New "storage is not a bolt database") (m := "ion") (rest := ["key"]);
      reflexivity.
  - apply (NewDIDService_first_failure unitStorage failingHandler None
             ["key"; "web"] tt) with (st := Some tt) (h := None)
             (cause := New "storage is not a bolt database") (m := "key") (rest := ["web"]);
      reflexivity.
Defined.

End did.

(** ** Go calls that may not return *)

Module go.

(** What a call does: it returns its results, or it panics (here: a nil
    pointer is dereferenced). *)
Inductive outcome (A : Type) : Type :=
| Returns (a : A)
| Panics.
Arguments Returns {A} a.
Arguments Panics {A}.

End go.

(** ** [internal/did/access.go]: from a DID to a key, and token verification *)

Module access.
Import errors go.

(** [util.LoggingErrorMsg(err, msg)] of the SDK logs the error and returns it
    wrapped with [msg]; the log line is not modelled. *)
Definition LoggingErrorMsg (err : error) (msg : string) : error := Wrap err msg.

Section Access.

(** [context.Context], [did.Document], [crypto.PublicKey] (behind its
    interface), [resolution.ResolutionOption], [keyaccess.JWT] and
    [*keyaccess.JWKKeyAccessVerifier]. *)
Context {Ctx DIDDocument PublicKey ResolutionOption JWT Verifier : Type}.

(** [*resolution.ResolutionResult]; only the embedded document is read. *)
Record ResolutionResult : Type := mkResolutionResult { Document : DIDDocument }.

(** [resolution.Resolver]: the one method
    [Resolve(ctx, id, opts ...ResolutionOption)], which returns a
    [*ResolutionResult] and an [error].  The resolver handed in is one that
    is there and whose [Resolve] returns; what the functions do with a nil
    resolver is not described. *)
Record Resolver : Type := mkResolver {
  Resolve : Ctx → string → list (option ResolutionOption)
            → option ResolutionResult * option error
}.

(** [didsdk.GetKeyFromVerificationMethod], [keyaccess.NewJWKKeyAccessVerifier]
    and the verifier's [Verify] method, as they are called. *)
Variable GetKeyFromVerificationMethod :
  DIDDocument → string → option PublicKey * option error.
Variable NewJWKKeyAccessVerifier :
  string → string → option PublicKey → option Verifier * option error.
Variable Verify : option Verifier → JWT → option error.

(** [func ResolveKeyForDID(ctx, resolver, did, kid) (pubKey, err)].  The
    resolver is called with the single option [nil]; [resolved.Document]
    dereferences the result. *)
Definition ResolveKeyForDID (ctx : Ctx) (resolver : Resolver) (did kid : string)
  : outcome (option PublicKey * option error) :=
  match Resolve resolver ctx did [None] with
  | (_, Some err) => Returns (None, Some (Wrapf err ("resolving DID: " +:+ did)))
  | (None, None) => Panics
  | (Some resolved, None) =>
      match GetKeyFromVerificationMethod (Document resolved) kid with
      | (_, Some err) =>
          Returns (None, Some (Wrapf err
            ("getting verification information from DID Document: " +:+ did)))
      | (pubKey, None) => Returns (pubKey, None)
      end
  end.

(** [func VerifyTokenFromDID(ctx, resolver, did, kid, token) error].  The
    resolver is called without options. *)
Definition VerifyTokenFromDID (ctx : Ctx) (resolver : Resolver) (did kid : string)
    (token : JWT) : outcome (option error) :=
  match Resolve resolver ctx did [] with
  | (_, Some err) => Returns (Some (Wrapf err ("resolving DID: " +:+ did)))
  | (None, None) => Panics
  | (Some resolved, None) =>
      match GetKeyFromVerificationMethod (Document resolved) kid with
      | (_, Some err) =>
          Returns (Some (Wrapf err
            ("getting verification information from the DID document: " +:+ did)))
      | (pubKey, None) =>
          match NewJWKKeyAccessVerifier did kid pubKey with
          | (_, Some err) =>
              Returns (Some (LoggingErrorMsg err "could not create application verifier"))
          | (verifier, None) =>
              match Verify verifier token with
              | Some err =>
                  Returns (Some (LoggingErrorMsg err
                    "could not verify the application's signature"))
              | None => Returns None
              end
          end
      end
  end.

(** The kinds of failure of [VerifyTokenFromDID], by the context the error
    was wrapped with. *)
Definition resolutionFailed (did : string) (cause : error) : error :=
  Wrapf cause ("resolving DID: " +:+ did).
Definition keyExtractionFailed (did : string) (cause : error) : error :=
  Wrapf cause ("getting verification information from the DID document: " +:+ did).
Definition verifierFailed (cause : error) : error :=
  LoggingErrorMsg cause "could not create application verifier".
Definition verificationFailed (cause : error) : error :=
  LoggingErrorMsg cause "could not verify the application's signature".

(** *** Properties of the bridge *)

Lemma Error_resolutionFailed did cause :
  Error (resolutionFailed did cause)
  = "resolving DID: " +:+ did +:+ ": " +:+ Error cause.
Proof. unfold resolutionFailed, Wrapf. simpl. reflexivity. Qed.

(** The four wrapped errors print differently whatever the DID and the
    cause: the messages part at their first letters ([r], [g]) or, for the
    two that start with [could not ], further on. *)
Lemma failure_kinds_distinct d1 d2 e1 e2 e3 e4 :
  Error (resolutionFailed d1 e1) ≠ Error (keyExtractionFailed d2 e2) ∧
  Error (resolutionFailed d1 e1) ≠ Error (verifierFailed e3) ∧
  Error (resolutionFailed d1 e1) ≠ Error (verificationFailed e4) ∧
  Error (keyExtractionFailed d2 e2) ≠ Error (verifierFailed e3) ∧
  Error (keyExtractionFailed d2 e2) ≠ Error (verificationFailed e4) ∧
  Error (verifierFailed e3) ≠ Error (verificationFailed e4).
Proof.
  unfold resolutionFailed, keyExtractionFailed, verifierFailed,
    verificationFailed, LoggingErrorMsg, Wrapf, Wrap.
  split_and!; simpl; discriminate.
Qed.

(** C9: [ResolveKeyForDID] hands out no half result.  Whenever it returns,
    a non-nil error comes with a nil key, and a non-nil key comes with a nil
    error, from a resolution and a key extraction that both succeeded. *)
Theorem ResolveKeyForDID_no_partial_result ctx resolver did kid pubKey err :
  ResolveKeyForDID ctx resolver did kid = Returns (pubKey, err) →
  (is_Some err → pubKey = None) ∧
  (is_Some pubKey →
     err = None ∧
     ∃ resolved,
       Resolve resolver ctx did [None] = (Some resolved, None) ∧
       GetKeyFromVerificationMethod (Document resolved) kid = (pubKey, None)).
Proof.
  unfold ResolveKeyForDID.
  destruct (Resolve resolver ctx did [None]) as [[resolved|] [e|]];
    try (intros [= <- <-]; split; [done | by intros [? [=]]]); [|discriminate].
  destruct (GetKeyFromVerificationMethod _ kid) as [pk [e|]] eqn:Hkey.
  - intros [= <- <-]; split; [done | by intros [? [=]]].
  - intros [= <- <-]. split; [by intros [? [=]] | eauto].
Qed.

(** C8: [VerifyTokenFromDID] tells its failures apart.  A resolver error
    comes back wrapped with ["resolving DID: <did>"]; an error of the key
    extraction comes back wrapped with ["getting verification information
    from the DID document: <did>"]; past the key extraction, a verifier that
    cannot be built or a signature that does not verify come back wrapped
    with their own messages; a token that verifies yields nil.  The messages
    of these errors are pairwise different. *)
Theorem VerifyTokenFromDID_failures_distinguishable ctx resolver did kid token :
  (∀ r e, Resolve resolver ctx did [] = (r, Some e) →
     VerifyTokenFromDID ctx resolver did kid token
     = Returns (Some (resolutionFailed did e)) ∧
     Error (resolutionFailed did e)
     = "resolving DID: " +:+ did +:+ ": " +:+ Error e) ∧
  (∀ resolved,
     Resolve resolver ctx did [] = (Some resolved, None) →
     (∀ pk e,
        GetKeyFromVerificationMethod (Document resolved) kid = (pk, Some e) →
        VerifyTokenFromDID ctx resolver did kid token
        = Returns (Some (keyExtractionFailed did e))) ∧
     (∀ pk,
        GetKeyFromVerificationMethod (Document resolved) kid = (pk, None) →
        (∀ v e,
           NewJWKKeyAccessVerifier did kid pk = (v, Some e) →
           VerifyTokenFromDID ctx resolver did kid token
           = Returns (Some (verifierFailed e))) ∧
        (∀ v,
           NewJWKKeyAccessVerifier did kid pk = (v, None) →
           (∀ e, Verify v token = Some e →
                 VerifyTokenFromDID ctx resolver did kid token
                 = Returns (Some (verificationFailed e))) ∧
           (Verify v token = None →
            VerifyTokenFromDID ctx resolver did kid token = Returns None)))) ∧
  (∀ d1 d2 e1 e2 e3 e4,
     Error (resolutionFailed d1 e1) ≠ Error (keyExtractionFailed d2 e2) ∧
     Error (resolutionFailed d1 e1) ≠ Error (verifierFailed e3) ∧
     Error (resolutionFailed d1 e1) ≠ Error (verificationFailed e4) ∧
     Error (keyExtractionFailed d2 e2) ≠ Error (verifierFailed e3) ∧
     Error (keyExtractionFailed d2 e2) ≠ Error (verificationFailed e4) ∧
     Error (verifierFailed e3) ≠ Error (verificationFailed e4)).
Proof.
  unfold VerifyTokenFromDID. split_and!.
  - intros r e ->. split; [destruct r; reflexivity | apply Error_resolutionFailed].
  - intros resolved ->. split.
    + by intros pk e ->.
    + intros pk ->. split.
      * by intros v e ->.
      * intros v ->. split; [by intros e -> | by intros ->].
  - apply failure_kinds_distinct.
Qed.

(** *** Acceptance, panics and the two entry points together *)

(** [VerifyTokenFromDID] returns nil only for a token it verified: the
    resolver answered with a document and no error, the document gave a key
    for the key id, a verifier was built from that key, and the verifier
    accepted the token; and in that case it does return nil. *)
Theorem VerifyTokenFromDID_accepts_iff ctx resolver did kid token :
  VerifyTokenFromDID ctx resolver did kid token = Returns None ↔
  ∃ resolved pk v,
    Resolve resolver ctx did [] = (Some resolved, None) ∧
    GetKeyFromVerificationMethod (Document resolved) kid = (pk, None) ∧
    NewJWKKeyAccessVerifier did kid pk = (v, None) ∧
    Verify v token = None.
Proof.
  unfold VerifyTokenFromDID. split.
  - destruct (Resolve resolver ctx did []) as [[resolved|] [e|]]; try discriminate.
    destruct (GetKeyFromVerificationMethod _ kid) as [pk [e|]] eqn:Hkey; [discriminate|].
    destruct (NewJWKKeyAccessVerifier did kid pk) as [v [e|]] eqn:Hv; [discriminate|].
    destruct (Verify v token) eqn:Hverify; [discriminate|]. eauto 8.
  - intros (resolved & pk & v & -> & -> & -> & ->). reflexivity.
Qed.

(** Every error of [ResolveKeyForDID] is the resolver's error or the key
    extraction's error, wrapped with the DID: its message is the context,
    the DID and the cause's message, and the two contexts differ.  A result
    the resolver returned next to its error is not looked at. *)
Theorem ResolveKeyForDID_errors ctx resolver did kid pubKey err :
  ResolveKeyForDID ctx resolver did kid = Returns (pubKey, Some err) →
  (∃ r e, Resolve resolver ctx did [None] = (r, Some e) ∧
          err = Wrapf e ("resolving DID: " +:+ did) ∧
          Error err = "resolving DID: " +:+ did +:+ ": " +:+ Error e) ∨
  (∃ resolved k e,
     Resolve resolver ctx did [None] = (Some resolved, None) ∧
     GetKeyFromVerificationMethod (Document resolved) kid = (k, Some e) ∧
     err = Wrapf e ("getting verification information from DID Document: " +:+ did) ∧
     Error err = "getting verification information from DID Document: "
                 +:+ did +:+ ": " +:+ Error e).
Proof.
  unfold ResolveKeyForDID.
  destruct (Resolve resolver ctx did [None]) as [[resolved|] [e|]];
    [| |intros [= _ <-]; left; by exists None, e|discriminate].
  - intros [= _ <-]. left. by exists (Some resolved), e.
  - destruct (GetKeyFromVerificationMethod _ kid) as [k [e|]] eqn:Hkey; [|discriminate].
    intros [= _ <-]. right. by exists resolved, k, e.
Qed.

(** With a resolver that answers alike with and without the nil option, the
    two functions agree: a token that [VerifyTokenFromDID] accepts was
    verified with the very key [ResolveKeyForDID] returns, an error of
    [ResolveKeyForDID] is an error of [VerifyTokenFromDID] with the same
    cause, and one panics when the other does. *)
Theorem VerifyTokenFromDID_uses_resolved_key ctx resolver did kid token :
  Resolve resolver ctx did [] = Resolve resolver ctx did [None] →
  (VerifyTokenFromDID ctx resolver did kid token = Returns None →
   ∃ pk v, ResolveKeyForDID ctx resolver did kid = Returns (pk, None) ∧
           NewJWKKeyAccessVerifier did kid pk = (v, None) ∧
           Verify v token = None) ∧
  (∀ pk err,
     ResolveKeyForDID ctx resolver did kid = Returns (pk, Some err) →
     ∃ cause context context',
       err = Wrapf cause context ∧
       VerifyTokenFromDID ctx resolver did kid token
       = Returns (Some (Wrapf cause context'))) ∧
  (ResolveKeyForDID ctx resolver did kid = Panics
     ↔ VerifyTokenFromDID ctx resolver did kid token = Panics).
Proof.
  intros Hopts. unfold ResolveKeyForDID, VerifyTokenFromDID. rewrite Hopts.
  destruct (Resolve resolver ctx did [None]) as [[resolved|] [e|]].
  - split_and!; [discriminate| |split; discriminate].
    intros pk err [= _ <-]. eauto.
  - destruct (GetKeyFromVerificationMethod _ kid) as [pk [e|]] eqn:Hkey.
    + split_and!; [discriminate| |split; discriminate].
      intros pk' err [= _ <-]. eauto.
    + split_and!; [|discriminate|].
      * destruct (NewJWKKeyAccessVerifier did kid pk) as [v [e|]] eqn:Hv;
          [discriminate|].
        destruct (Verify v token) eqn:Hverify; [discriminate|]. eauto.
      * destruct (NewJWKKeyAccessVerifier did kid pk) as [v [e|]];
          [split; discriminate|].
        destruct (Verify v token); split; discriminate.
  - split_and!; [discriminate| |split; discriminate].
    intros pk err [= _ <-]. eauto.
  - split_and!; [discriminate|discriminate|done].
Qed.

End Access.

(** *** The bridge on a concrete back end

    A document lists its verification methods as pairs of a key id and a
    public key; keys are numbers; a token is a payload with a signature, and
    the signature of a payload under a key is their sum. *)

Definition listedKey (doc : list (string * nat)) (kid : string)
  : option nat * option error :=
  match list_find (λ vm, vm.1 = kid) doc with
  | Some (_, vm) => (Some vm.2, None)
  | None => (None, Some (New ("did document has no verification method with kid: " +:+ kid)))
  end.

Definition sumVerifier (did kid : string) (pubKey : option nat)
  : option nat * option error :=
  match pubKey with
  | Some k => (Some k, None)
  | None => (None, Some (New "key cannot be nil"))
  end.

Definition sumVerify (verifier : option nat) (token : nat * nat) : option error :=
  match verifier with
  | Some k => if (token.2 =? token.1 + k)%nat then None
              else Some (New "could not verify JWT")
  | None => Some (New "no verifier")
  end.

(** A resolver that knows one DID. *)
Definition oneDID (did : string) (doc : list (string * nat))
  : Resolver (Ctx:=unit) (ResolutionOption:=unit) :=
  mkResolver (λ _ id _,
    if String.eqb id did then (Some (mkResolutionResult doc), None)
    else (None, Some (New ("unsupported method for DID: " +:+ id)))).

Lemma ResolveKeyForDID_no_partial_result_witness :
  (is_Some (None : option error) → Some 7 = None) ∧
  (is_Some (Some 7) →
     (None : option error) = None ∧
     ∃ resolved,
       Resolve (oneDID "did:key:z6Mk" [("#z6Mk", 7)]) tt "did:key:z6Mk" [None]
       = (Some resolved, None) ∧
       listedKey (Document resolved) "#z6Mk" = (Some 7, None)).
Proof.
  apply (ResolveKeyForDID_no_partial_result listedKey tt
           (oneDID "did:key:z6Mk" [("#z6Mk", 7)]) "did:key:z6Mk" "#z6Mk").
  reflexivity.
Defined.

(** The four runs of the claim: an unknown DID, a document without the key
    id, a token whose signature is off by one, and a token signed with the
    listed key. *)
Lemma VerifyTokenFromDID_failures_distinguishable_witness :
  VerifyTokenFromDID listedKey sumVerifier sumVerify tt
    (oneDID "did:key:z6Mk" [("#z6Mk", 7)]) "did:web:x" "#z6Mk" (35, 42)
  = Returns (Some (resolutionFailed "did:web:x"
                     (New "unsupported method for DID: did:web:x"))) ∧
  VerifyTokenFromDID listedKey sumVerifier sumVerify tt
    (oneDID "did:key:z6Mk" [("#z6Mk", 7)]) "did:key:z6Mk" "#other" (35, 42)
  = Returns (Some (keyExtractionFailed "did:key:z6Mk"
                     (New "did document has no verification method with kid: #other"))) ∧
  VerifyTokenFromDID listedKey sumVerifier sumVerify tt
    (oneDID "did:key:z6Mk" [("#z6Mk", 7)]) "did:key:z6Mk" "#z6Mk" (35, 43)
  = Returns (Some (verificationFailed (New "could not verify JWT"))) ∧
  VerifyTokenFromDID listedKey sumVerifier sumVerify tt
    (oneDID "did:key:z6Mk" [("#z6Mk", 7)]) "did:key:z6Mk" "#z6Mk" (35, 42)
  = Returns None.
Proof.
  pose (r := oneDID "did:key:z6Mk" [("#z6Mk", 7)]).
  pose (doc := mkResolutionResult [("#z6Mk", 7)]).
  split_and!.
  - apply (VerifyTokenFromDID_failures_distinguishable listedKey sumVerifier
             sumVerify tt r "did:web:x" "#z6Mk" (35, 42)) with (r := None).
    reflexivity.
  - apply (VerifyTokenFromDID_failures_distinguishable listedKey sumVerifier
             sumVerify tt r "did:key:z6Mk" "#other" (35, 42))
      with (resolved := doc) (pk := None); reflexivity.
  - apply (VerifyTokenFromDID_failures_distinguishable listedKey sumVerifier
             sumVerify tt r "did:key:z6Mk" "#z6Mk" (35, 43))
      with (resolved := doc) (pk := Some 7) (v := Some 7); reflexivity.
  - apply (VerifyTokenFromDID_failures_distinguishable listedKey sumVerifier
             sumVerify tt r "did:key:z6Mk" "#z6Mk" (35, 42))
      with (resolved := doc) (pk := Some 7) (v := Some 7); reflexivity.
Defined.

(** A resolver that returns nothing at all. *)
Definition nilResolver : Resolver (Ctx:=unit) (DIDDocument:=list (string * nat))
                           (ResolutionOption:=unit) :=
  mkResolver (λ _ _ _, (None, None)).

Lemma ResolveKeyForDID_errors_witness :
  (∃ r e, Resolve (oneDID "did:key:z6Mk" [("#z6Mk", 7)]) tt "did:key:z6Mk" [None]
          = (r, Some e) ∧
          Wrapf (New "did document has no verification method with kid: #other")
            ("getting verification information from DID Document: " +:+ "did:key:z6Mk")
          = Wrapf e ("resolving DID: " +:+ "did:key:z6Mk") ∧
          Error (Wrapf (New "did document has no verification method with kid: #other")
                   ("getting verification information from DID Document: "
                    +:+ "did:key:z6Mk"))
          = "resolving DID: " +:+ "did:key:z6Mk" +:+ ": " +:+ Error e) ∨
  (∃ resolved k e,
     Resolve (oneDID "did:key:z6Mk" [("#z6Mk", 7)]) tt "did:key:z6Mk" [None]
     = (Some resolved, None) ∧
     listedKey (Document resolved) "#other" = (k, Some e) ∧
     Wrapf (New "did document has no verification method with kid: #other")
       ("getting verification information from DID Document: " +:+ "did:key:z6Mk")
     = Wrapf e ("getting verification information from DID Document: " +:+ "did:key:z6Mk") ∧
     Error (Wrapf (New "did document has no verification method with kid: #other")
              ("getting verification information from DID Document: " +:+ "did:key:z6Mk"))
     = "getting verification information from DID Document: "
       +:+ "did:key:z6Mk" +:+ ": " +:+ Error e).
Proof.
  apply (ResolveKeyForDID_errors listedKey tt (oneDID "did:key:z6Mk" [("#z6Mk", 7)])
           "did:key:z6Mk" "#other" None).
  reflexivity.
Defined.

Lemma VerifyTokenFromDID_uses_resolved_key_witness :
  ∃ pk v,
    ResolveKeyForDID listedKey tt (oneDID "did:key:z6Mk" [("#z6Mk", 7)])
      "did:key:z6Mk" "#z6Mk" = Returns (pk, None) ∧
    sumVerifier "did:key:z6Mk" "#z6Mk" pk = (v, None) ∧
    sumVerify v (35, 42) = None.
Proof.
  apply (VerifyTokenFromDID_uses_resolved_key listedKey sumVerifier sumVerify tt
           (oneDID "did:key:z6Mk" [("#z6Mk", 7)]) "did:key:z6Mk" "#z6Mk" (35, 42));
    reflexivity.
Defined.

Example nilResolver_panics :
  ResolveKeyForDID listedKey tt nilResolver "did:key:z6Mk" "#z6Mk" = Panics ∧
  VerifyTokenFromDID listedKey sumVerifier sumVerify tt nilResolver
    "did:key:z6Mk" "#z6Mk" (35, 42) = Panics.
Proof. split; reflexivity. Qed.

End access.

(** ** [integration/common.go]: the HTTP helpers of the integration tests *)

Module integration.
Import errors go.

Local Open Scope Z_scope.

(** [func is2xxResponse(statusCode int) bool].  Go's [/] on [int] truncates
    towards zero, which is [Z.quot]. *)
Definition is2xxResponse (statusCode : Z) : bool :=
  negb (Z.quot statusCode 100 =? 2).

Section HTTP.

(** [io.ReadCloser] and [*http.Request]. *)
Context {ReadCloser Request : Type}.

(** [*http.Response]; the helpers read its status code and its body. *)
Record Response : Type := mkResponse { StatusCode : Z; Body : ReadCloser }.

(** [net/http] and [io], as the helpers call them: [http.Get],
    [http.NewRequest], [req.Header.Set], [client.Do] and [io.ReadAll]. *)
Variable http_Get : string → option Response * option error.
Variable http_NewRequest :
  string → string → list byte → option Request * option error.
Variable Header_Set : Request → string → string → Request.
Variable client_Do : Request → option Response * option error.
Variable io_ReadAll : ReadCloser → list byte * option error.

Definition MethodPut : string := "PUT".

(** [func get(url string) (string, error)].  The log line is not modelled. *)
Definition get (url : string) : outcome (string * option error) :=
  match http_Get url with
  | (_, Some err) => Returns ("", Some (Wrapf err ("getting url: " +:+ url)))
  | (None, None) => Panics
  | (Some resp, None) =>
      match io_ReadAll (Body resp) with
      | (_, Some err) => Returns ("", Some (Wrap err "parsing body"))
      | (body, None) =>
          if is2xxResponse (StatusCode resp) then
            Returns ("", Some (New ("status code not in the 200s. body: "
                                    +:+ string_of_list_byte body)))
          else Returns (string_of_list_byte body, None)
      end
  end.

(** The statements of [put] from [http.NewRequest] on: build the request,
    send it, read the answer, judge the status code ([%v] prints it in
    decimal).  [put] itself first evaluates [compactJSONOutput(json)] for its
    log line; it is [putLogged] below. *)
Definition putRequest (url json : string) : outcome (string * option error) :=
  match http_NewRequest MethodPut url (list_byte_of_string json) with
  | (_, Some err) => Returns ("", Some (Wrap err "building http req"))
  | (None, None) => Panics
  | (Some req, None) =>
      let req := Header_Set req "Content-Type" "application/json" in
      match client_Do req with
      | (_, Some err) => Returns ("", Some (Wrap err "client http client"))
      | (None, None) => Panics
      | (Some resp, None) =>
          match io_ReadAll (Body resp) with
          | (_, Some err) => Returns ("", Some (Wrap err "parsing body"))
          | (body, None) =>
              if is2xxResponse (StatusCode resp) then
                Returns ("", Some (New ("status code " +:+ pretty (StatusCode resp)
                                        +:+ " not in the 200s. body: "
                                        +:+ string_of_list_byte body)))
              else Returns (string_of_list_byte body, None)
          end
      end
  end.

(** *** Properties of the helpers *)

(** Truncated division by 100 gives 2 on 200..299 and nowhere else, negative
    codes included. *)
Lemma quot_100_eq_2 c : Z.quot c 100 = 2 ↔ 200 ≤ c ≤ 299.
Proof.
  destruct (Z.le_gt_cases 0 c) as [Hc|Hc].
  - rewrite Z.quot_div_nonneg by lia. split.
    + intros H. pose proof (Z.div_mod c 100 ltac:(lia)) as Hd.
      pose proof (Z.mod_pos_bound c 100 ltac:(lia)). lia.
    + intros H. symmetry. apply (Z.div_unique c 100 2 (c - 200)); lia.
  - split; [|lia]. intros H.
    pose proof (Z.quot_opp_l c 100 ltac:(lia)) as Ho.
    rewrite Z.quot_div_nonneg in Ho by lia.
    pose proof (Z.div_pos (- c) 100 ltac:(lia) ltac:(lia)). lia.
Qed.

Lemma is2xxResponse_true c : is2xxResponse c = true ↔ ¬ (200 ≤ c ≤ 299).
Proof.
  unfold is2xxResponse. rewrite <- quot_100_eq_2, negb_true_iff, Z.eqb_neq. tauto.
Qed.

Lemma is2xxResponse_false c : is2xxResponse c = false ↔ 200 ≤ c ≤ 299.
Proof.
  unfold is2xxResponse. rewrite <- quot_100_eq_2, negb_false_iff, Z.eqb_eq. tauto.
Qed.

End HTTP.

(** *** The helpers against a canned server

    Every URL answers with the status code spelled at its end ([/200],
    [/404]) and the body [ok]; bodies are their own readers. *)

Definition cannedStatus (url : string) : Z :=
  if String.eqb url "http://localhost:8080/v1/dids/200" then 200
  else if String.eqb url "http://localhost:8080/v1/dids/299" then 299
  else 404.

Definition cannedGet (url : string) : option (@Response (list byte)) * option error :=
  (Some (mkResponse (cannedStatus url) (list_byte_of_string "ok")), None).

Definition cannedNewRequest (method url : string) (body : list byte)
  : option string * option error := (Some url, None).

Definition cannedReadAll (body : list byte) : list byte * option error := (body, None).

(** *** The helpers that build on [get] and [put] *)

Section Helpers.

Context {ReadCloser Request : Type}.

Variable http_Get : string → option (@Response ReadCloser) * option error.
Variable http_NewRequest :
  string → string → list byte → option Request * option error.
Variable Header_Set : Request → string → string → Request.
Variable client_Do : Request → option (@Response ReadCloser) * option error.
Variable io_ReadAll : ReadCloser → list byte * option error.

(** [json.Compact(buffer, jsonBytes)] on a fresh buffer: what the buffer
    holds afterwards, and the error.  [testVectors.ReadFile] of the embedded
    file system.  [strings.ReplaceAll]. *)
Variable json_Compact : list byte → string * option error.
Variable testVectors_ReadFile : string → list byte * option error.
Variable strings_ReplaceAll : string → string → string → string.

Definition endpoint : string := "http://localhost:8080/".
Definition version : string := "v1/".

(** [func compactJSONOutput(jsonString string) string]: it panics with the
    error of [json.Compact]. *)
Definition compactJSONOutput (jsonString : string) : outcome string :=
  match json_Compact (list_byte_of_string jsonString) with
  | (_, Some _) => Panics
  | (out, None) => Returns out
  end.

(** [func put(url string, json string) (string, error)], in full.  Its first
    statement logs [compactJSONOutput(json)], which is evaluated before the
    request is built, so [put] panics where that does; the rest is
    [putRequest]. *)
Definition putLogged (url json : string) : outcome (string * option error) :=
  match compactJSONOutput json with
  | Panics => Panics
  | Returns _ => putRequest http_NewRequest Header_Set client_Do io_ReadAll url json
  end.

(** [func getJSONFromFile(fileName string) string]: the error of [ReadFile]
    is dropped. *)
Definition getJSONFromFile (fileName : string) : string :=
  string_of_list_byte (testVectors_ReadFile ("testdata/" +:+ fileName)).1.

(** [func CreateDIDKey() (string, error)]. *)
Definition CreateDIDKey : outcome (string * option error) :=
  match putLogged (endpoint +:+ version +:+ "dids/key") (getJSONFromFile "did-input.json") with
  | Panics => Panics
  | Returns (output, Some err) =>
      Returns ("", Some (Wrapf err ("did endpoint with output: " +:+ output)))
  | Returns (output, None) => Returns (output, None)
  end.

(** [func CreateDIDWeb() (string, error)]. *)
Definition CreateDIDWeb : outcome (string * option error) :=
  match putLogged (endpoint +:+ version +:+ "dids/web")
          (getJSONFromFile "did-web-input.json") with
  | Panics => Panics
  | Returns (output, Some err) =>
      Returns ("", Some (Wrapf err ("did endpoint with output: " +:+ output)))
  | Returns (output, None) => Returns (output, None)
  end.

(** [func ResolveDID(did string) (string, error)]. *)
Definition ResolveDID (did : string) : outcome (string * option error) :=
  match get http_Get io_ReadAll (endpoint +:+ version +:+ "dids/resolver/" +:+ did) with
  | Panics => Panics
  | Returns (output, Some err) =>
      Returns ("", Some (Wrapf err ("did resolver with output: " +:+ output)))
  | Returns (output, None) => Returns (output, None)
  end.

(** [func CreateKYCSchema() (string, error)]. *)
Definition CreateKYCSchema : outcome (string * option error) :=
  match putLogged (endpoint +:+ version +:+ "schemas")
          (getJSONFromFile "schema-input.json") with
  | Panics => Panics
  | Returns (output, Some err) =>
      Returns ("", Some (Wrapf err ("schema endpoint with output: " +:+ output)))
  | Returns (output, None) => Returns (output, None)
  end.

(** [func CreateVerifiableCredential(issuerDID, schemaID string, revocable
    bool) (string, error)]: the issuer is also written as the subject. *)
Definition CreateVerifiableCredential (issuerDID schemaID : string) (revocable : bool)
  : outcome (string * option error) :=
  let credentialJSON := getJSONFromFile "credential-input.json" in
  let credentialJSON :=
    if revocable then getJSONFromFile "credential-revocable-input.json"
    else credentialJSON in
  let credentialJSON := strings_ReplaceAll credentialJSON "<CREDISSUERID>" issuerDID in
  let credentialJSON := strings_ReplaceAll credentialJSON "<CREDSUBJECTID>" issuerDID in
  let credentialJSON := strings_ReplaceAll credentialJSON "<SCHEMAID>" schemaID in
  match putLogged (endpoint +:+ version +:+ "credentials") credentialJSON with
  | Panics => Panics
  | Returns (output, Some err) =>
      Returns ("", Some (Wrapf err ("credentials endpoint with output: " +:+ output)))
  | Returns (output, None) => Returns (output, None)
  end.

(** [func CreateSubmissionCredential(issuerDID, subjectDID string) (string,
    error)]. *)
Definition CreateSubmissionCredential (issuerDID subjectDID : string)
  : outcome (string * option error) :=
  let credentialJSON := getJSONFromFile "submission-credential-input.json" in
  let credentialJSON := strings_ReplaceAll credentialJSON "<CREDISSUERID>" issuerDID in
  let credentialJSON := strings_ReplaceAll credentialJSON "<CREDSUBJECTID>" subjectDID in
  match putLogged (endpoint +:+ version +:+ "credentials") credentialJSON with
  | Panics => Panics
  | Returns (output, Some err) =>
      Returns ("", Some (Wrapf err ("credentials endpoint with output: " +:+ output)))
  | Returns (output, None) => Returns (output, None)
  end.

(** [func CreateCredentialManifest(issuerDID, schemaID string) (string,
    error)]. *)
Definition CreateCredentialManifest (issuerDID schemaID : string)
  : outcome (string * option error) :=
  let manifestJSON := getJSONFromFile "manifest-input.json" in
  let manifestJSON := strings_ReplaceAll manifestJSON "<SCHEMAID>" schemaID in
  let manifestJSON := strings_ReplaceAll manifestJSON "<ISSUERID>" issuerDID in
  match putLogged (endpoint +:+ version +:+ "manifests") manifestJSON with
  | Panics => Panics
  | Returns (output, Some err) =>
      Returns ("", Some (Wrapf err ("manifest endpoint with output: " +:+ output)))
  | Returns (output, None) => Returns (output, None)
  end.

(** [func CreatePresentationDefinition() (string, error)]. *)
Definition CreatePresentationDefinition : outcome (string * option error) :=
  let definitionJSON := getJSONFromFile "presentation-definition-input.json" in
  match putLogged (endpoint +:+ version +:+ "presentations/definitions") definitionJSON with
  | Panics => Panics
  | Returns (output, Some err) =>
      Returns ("", Some (Wrapf err
        ("presentation definition endpoint with output: " +:+ output)))
  | Returns (output, None) => Returns (output, None)
  end.

(** [func ReviewSubmission(id string) (string, error)]. *)
Definition ReviewSubmission (id : string) : outcome (string * option error) :=
  let reviewJSON := getJSONFromFile "review-submission-input.json" in
  match putLogged (endpoint +:+ version +:+ "presentations/submissions/" +:+ id +:+ "/review")
          reviewJSON with
  | Panics => Panics
  | Returns (output, Some err) =>
      Returns ("", Some (Wrapf err ("review submission endpoint with output: " +:+ output)))
  | Returns (output, None) => Returns (output, None)
  end.

(** [func SubmitApplication(credAppJWT string) (string, error)]. *)
Definition SubmitApplication (credAppJWT : string) : outcome (string * option error) :=
  let trueApplicationJSON := getJSONFromFile "application-input-jwt.json" in
  let trueApplicationJSON :=
    strings_ReplaceAll trueApplicationJSON "<APPLICATIONJWT>" credAppJWT in
  match putLogged (endpoint +:+ version +:+ "manifests/applications") trueApplicationJSON with
  | Panics => Panics
  | Returns (output, Some err) =>
      Returns ("", Some (Wrapf err ("application endpoint with output: " +:+ output)))
  | Returns (output, None) => Returns (output, None)
  end.

(** *** Properties of the helpers *)

Lemma get_error_output url out err :
  get http_Get io_ReadAll url = Returns (out, Some err) → out = "".
Proof.
  unfold get. destruct (http_Get url) as [[resp|] [e|]]; try by intros [= <- _].
  destruct (io_ReadAll (Body resp)) as [body [e|]]; [by intros [= <- _]|].
  destruct (is2xxResponse (StatusCode resp)); [by intros [= <- _]|discriminate].
Qed.

Lemma put_error_output url json out err :
  putRequest http_NewRequest Header_Set client_Do io_ReadAll url json
  = Returns (out, Some err) →
  out = "".
Proof.
  unfold putRequest.
  destruct (http_NewRequest _ _ _) as [[req|] [e|]]; try by intros [= <- _].
  destruct (client_Do _) as [[resp|] [e|]]; try by intros [= <- _].
  destruct (io_ReadAll (Body resp)) as [body [e|]]; [by intros [= <- _]|].
  destruct (is2xxResponse (StatusCode resp)); [by intros [= <- _]|discriminate].
Qed.

Lemma putLogged_returns url json r :
  putLogged url json = Returns r →
  putRequest http_NewRequest Header_Set client_Do io_ReadAll url json = Returns r.
Proof. unfold putLogged. by destruct (compactJSONOutput json). Qed.

Lemma get_ok_iff url out :
  get http_Get io_ReadAll url = Returns (out, None) ↔
  ∃ resp body,
    http_Get url = (Some resp, None) ∧ io_ReadAll (Body resp) = (body, None) ∧
    200 ≤ StatusCode resp ≤ 299 ∧ out = string_of_list_byte body.
Proof.
  unfold get. split.
  - destruct (http_Get url) as [[resp|] [e|]]; try discriminate.
    destruct (io_ReadAll (Body resp)) as [body [e|]] eqn:Hread; [discriminate|].
    destruct (is2xxResponse (StatusCode resp)) eqn:Hc; [discriminate|].
    intros [= <-]. apply is2xxResponse_false in Hc. eauto 8.
  - intros (resp & body & -> & -> & Hc & ->).
    apply is2xxResponse_false in Hc. by rewrite Hc.
Qed.

Lemma put_ok_iff url json out :
  putRequest http_NewRequest Header_Set client_Do io_ReadAll url json
  = Returns (out, None) ↔
  ∃ req resp body,
    http_NewRequest MethodPut url (list_byte_of_string json) = (Some req, None) ∧
    client_Do (Header_Set req "Content-Type" "application/json") = (Some resp, None) ∧
    io_ReadAll (Body resp) = (body, None) ∧
    200 ≤ StatusCode resp ≤ 299 ∧ out = string_of_list_byte body.
Proof.
  unfold putRequest. split.
  - destruct (http_NewRequest _ _ _) as [[req|] [e|]]; try discriminate.
    destruct (client_Do _) as [[resp|] [e|]] eqn:Hdo; try discriminate.
    destruct (io_ReadAll (Body resp)) as [body [e|]] eqn:Hread; [discriminate|].
    destruct (is2xxResponse (StatusCode resp)) eqn:Hc; [discriminate|].
    intros [= <-]. apply is2xxResponse_false in Hc. eauto 10.
  - intros (req & resp & body & -> & -> & -> & Hc & ->).
    apply is2xxResponse_false in Hc. by rewrite Hc.
Qed.

(** C10: [is2xxResponse] answers true exactly on the status codes outside
    200..299.  So, once a response has arrived and its body has been read,
    [get] returns the body with a nil error when the status code is in
    200..299 and an empty string with an error when it is not, and so does
    [put] for a document that compacts (for one that does not, [put] panics
    before any request is made); and neither returns a nil error in any
    other way. *)
Theorem is2xxResponse_inverted :
  (∀ c, is2xxResponse c = true ↔ ¬ (200 ≤ c ≤ 299)) ∧
  (∀ url resp body,
     http_Get url = (Some resp, None) →
     io_ReadAll (Body resp) = (body, None) →
     (200 ≤ StatusCode resp ≤ 299 →
      get http_Get io_ReadAll url = Returns (string_of_list_byte body, None)) ∧
     (¬ (200 ≤ StatusCode resp ≤ 299) →
      ∃ e, get http_Get io_ReadAll url = Returns ("", Some e))) ∧
  (∀ url out,
     get http_Get io_ReadAll url = Returns (out, None) →
     ∃ resp body,
       http_Get url = (Some resp, None) ∧ io_ReadAll (Body resp) = (body, None) ∧
       200 ≤ StatusCode resp ≤ 299 ∧ out = string_of_list_byte body) ∧
  (∀ url json compacted req resp body,
     json_Compact (list_byte_of_string json) = (compacted, None) →
     http_NewRequest MethodPut url (list_byte_of_string json) = (Some req, None) →
     client_Do (Header_Set req "Content-Type" "application/json") = (Some resp, None) →
     io_ReadAll (Body resp) = (body, None) →
     (200 ≤ StatusCode resp ≤ 299 →
      putLogged url json = Returns (string_of_list_byte body, None)) ∧
     (¬ (200 ≤ StatusCode resp ≤ 299) →
      ∃ e, putLogged url json = Returns ("", Some e))) ∧
  (∀ url json out,
     putLogged url json = Returns (out, None) →
     ∃ compacted req resp body,
       json_Compact (list_byte_of_string json) = (compacted, None) ∧
       http_NewRequest MethodPut url (list_byte_of_string json) = (Some req, None) ∧
       client_Do (Header_Set req "Content-Type" "application/json") = (Some resp, None) ∧
       io_ReadAll (Body resp) = (body, None) ∧
       200 ≤ StatusCode resp ≤ 299 ∧ out = string_of_list_byte body) ∧
  (∀ url json rest e,
     json_Compact (list_byte_of_string json) = (rest, Some e) →
     putLogged url json = Panics).
Proof.
  split_and!.
  - apply is2xxResponse_true.
  - intros url resp body Hget Hread. unfold get. rewrite Hget, Hread. split.
    + intros Hc. apply is2xxResponse_false in Hc. by rewrite Hc.
    + intros Hc. apply is2xxResponse_true in Hc. rewrite Hc. eauto.
  - intros url out Hrun. by apply get_ok_iff.
  - intros url json compacted req resp body Hjson Hreq Hdo Hread.
    unfold putLogged, compactJSONOutput, putRequest.
    rewrite Hjson, Hreq, Hdo, Hread. split.
    + intros Hc. apply is2xxResponse_false in Hc. by rewrite Hc.
    + intros Hc. apply is2xxResponse_true in Hc. rewrite Hc. eauto.
  - intros url json out. unfold putLogged, compactJSONOutput.
    destruct (json_Compact _) as [compacted [e|]]; [discriminate|].
    intros (req & resp & body & H)%put_ok_iff. eauto 10.
  - intros url json rest e Hjson. unfold putLogged, compactJSONOutput.
    by rewrite Hjson.
Qed.

(** [put] panics exactly when its document does not compact, or the request
    or the response comes back nil without an error; a document that does
    not compact makes it panic whatever the server would have answered. *)
Theorem putLogged_panics_iff url json :
  putLogged url json = Panics ↔
  (∃ out e, json_Compact (list_byte_of_string json) = (out, Some e)) ∨
  http_NewRequest MethodPut url (list_byte_of_string json) = (None, None) ∨
  (∃ req, http_NewRequest MethodPut url (list_byte_of_string json) = (Some req, None) ∧
          client_Do (Header_Set req "Content-Type" "application/json") = (None, None)).
Proof.
  unfold putLogged, compactJSONOutput, putRequest.
  destruct (json_Compact _) as [out [e|]]; [split; eauto|].
  destruct (http_NewRequest _ _ _) as [[req|] [e|]].
  - split; [discriminate|]. intros [(? & ? & [=])|[[=]|(? & [=] & _)]].
  - destruct (client_Do _) as [[resp|] [e|]] eqn:Hdo.
    + split; [discriminate|].
      intros [(? & ? & [=])|[[=]|(? & [= <-] & Hnil)]]. by rewrite Hdo in Hnil.
    + destruct (io_ReadAll (Body resp)) as [body [e|]];
        [|destruct (is2xxResponse (StatusCode resp))];
        (split; [discriminate|]);
        intros [(? & ? & [=])|[[=]|(? & [= <-] & Hnil)]]; by rewrite Hdo in Hnil.
    + split; [discriminate|].
      intros [(? & ? & [=])|[[=]|(? & [= <-] & Hnil)]]. by rewrite Hdo in Hnil.
    + split; [intros _; right; right; eauto|done].
  - split; [discriminate|]. intros [(? & ? & [=])|[[=]|(? & [=] & _)]].
  - split; [by right; left|done].
Qed.

(** Every error of [get] is one of three: the transport's error wrapped with
    the URL, the error of reading the body wrapped, or a new error quoting
    the body, for a status code outside 200..299. *)
Theorem get_errors url out err :
  get http_Get io_ReadAll url = Returns (out, Some err) →
  (∃ r e, http_Get url = (r, Some e) ∧ err = Wrapf e ("getting url: " +:+ url)) ∨
  (∃ resp partial e,
     http_Get url = (Some resp, None) ∧ io_ReadAll (Body resp) = (partial, Some e) ∧
     err = Wrap e "parsing body") ∨
  (∃ resp body,
     http_Get url = (Some resp, None) ∧ io_ReadAll (Body resp) = (body, None) ∧
     ¬ (200 ≤ StatusCode resp ≤ 299) ∧
     err = New ("status code not in the 200s. body: " +:+ string_of_list_byte body)).
Proof.
  unfold get. destruct (http_Get url) as [[resp|] [e|]] eqn:Hget.
  - intros [= _ <-]. left. eauto.
  - destruct (io_ReadAll (Body resp)) as [body [e|]] eqn:Hread.
    + intros [= _ <-]. right. left. eauto 6.
    + destruct (is2xxResponse (StatusCode resp)) eqn:Hc; [|discriminate].
      intros [= _ <-]. apply is2xxResponse_true in Hc. right. right. eauto 6.
  - intros [= _ <-]. left. eauto.
  - discriminate.
Qed.

(** Every error of [put] is one of four: the error of building the request,
    of sending it, of reading the body, each wrapped with its own context,
    or a new error that gives the status code in decimal and quotes the body,
    for a status code outside 200..299. *)
Theorem putLogged_errors url json out err :
  putLogged url json = Returns (out, Some err) →
  (∃ r e, http_NewRequest MethodPut url (list_byte_of_string json) = (r, Some e) ∧
          err = Wrap e "building http req") ∨
  (∃ req, http_NewRequest MethodPut url (list_byte_of_string json) = (Some req, None) ∧
     ((∃ r e, client_Do (Header_Set req "Content-Type" "application/json") = (r, Some e) ∧
              err = Wrap e "client http client") ∨
      (∃ resp, client_Do (Header_Set req "Content-Type" "application/json")
               = (Some resp, None) ∧
         ((∃ partial e, io_ReadAll (Body resp) = (partial, Some e) ∧
                        err = Wrap e "parsing body") ∨
          (∃ body, io_ReadAll (Body resp) = (body, None) ∧
                   ¬ (200 ≤ StatusCode resp ≤ 299) ∧
                   err = New ("status code " +:+ pretty (StatusCode resp)
                              +:+ " not in the 200s. body: "
                              +:+ string_of_list_byte body)))))).
Proof.
  intros Hput%putLogged_returns. revert Hput. unfold putRequest.
  destruct (http_NewRequest _ _ _) as [[req|] [e|]] eqn:Hreq.
  - intros [= _ <-]. left. eauto.
  - destruct (client_Do _) as [[resp|] [e|]] eqn:Hdo.
    + intros [= _ <-]. right. exists req. split; [done|]. left. eauto.
    + destruct (io_ReadAll (Body resp)) as [body [e|]] eqn:Hread.
      * intros [= _ <-]. right. exists req. split; [done|]. right.
        exists resp. split; [done|]. left. eauto.
      * destruct (is2xxResponse (StatusCode resp)) eqn:Hc; [|discriminate].
        intros [= _ <-]. apply is2xxResponse_true in Hc. right.
        exists req. split; [done|]. right. exists resp. split; [done|]. right. eauto.
    + intros [= _ <-]. right. exists req. split; [done|]. left. eauto.
    + discriminate.
  - intros [= _ <-]. left. eauto.
  - discriminate.
Qed.

(** [ResolveDID] returns a string with a nil error exactly when the GET on
    the resolver endpoint followed by the DID was answered with a status
    code in 200..299 and a body that could be read; the string is that body. *)
Theorem ResolveDID_returns_iff did out :
  ResolveDID did = Returns (out, None) ↔
  ∃ resp body,
    http_Get ("http://localhost:8080/v1/dids/resolver/" +:+ did) = (Some resp, None) ∧
    io_ReadAll (Body resp) = (body, None) ∧
    200 ≤ StatusCode resp ≤ 299 ∧ out = string_of_list_byte body.
Proof.
  change ("http://localhost:8080/v1/dids/resolver/" +:+ did)
    with (endpoint +:+ version +:+ "dids/resolver/" +:+ did).
  rewrite <- get_ok_iff. unfold ResolveDID.
  destruct (get _ _ _) as [[output [e|]]|]; split; try discriminate; by intros [= <-].
Qed.

(** [CreateDIDKey] returns a string with a nil error exactly when the test
    vector [did-input.json] compacts, the PUT request for the key endpoint
    with that document is built and sent, and the answer has a status code
    in 200..299 and a body that could be read; the string is that body. *)
Theorem CreateDIDKey_returns_iff out :
  CreateDIDKey = Returns (out, None) ↔
  ∃ compacted req resp body,
    json_Compact (testVectors_ReadFile "testdata/did-input.json").1 = (compacted, None) ∧
    http_NewRequest "PUT" "http://localhost:8080/v1/dids/key"
      (testVectors_ReadFile "testdata/did-input.json").1 = (Some req, None) ∧
    client_Do (Header_Set req "Content-Type" "application/json") = (Some resp, None) ∧
    io_ReadAll (Body resp) = (body, None) ∧
    200 ≤ StatusCode resp ≤ 299 ∧ out = string_of_list_byte body.
Proof.
  unfold CreateDIDKey, putLogged, compactJSONOutput, getJSONFromFile.
  rewrite list_byte_of_string_of_list_byte.
  change ("testdata/" +:+ "did-input.json") with "testdata/did-input.json".
  destruct (json_Compact _) as [compacted [e|]].
  { split; [discriminate|]. by intros (? & ? & ? & ? & [=] & _). }
  pose proof (put_ok_iff (endpoint +:+ version +:+ "dids/key")
    (string_of_list_byte (testVectors_ReadFile "testdata/did-input.json").1) out) as Hput.
  rewrite list_byte_of_string_of_list_byte in Hput.
  change (endpoint +:+ version +:+ "dids/key") with "http://localhost:8080/v1/dids/key" in *.
  change MethodPut with "PUT" in Hput.
  split.
  - destruct (putRequest _ _ _ _ _ _) as [[output [e|]]|] eqn:Hrun; try discriminate.
    intros [= ->]. destruct (proj1 Hput eq_refl) as (req & resp & body & H).
    eauto 10.
  - intros (_ & req & resp & body & _ & H).
    assert (Hrun : putRequest http_NewRequest Header_Set client_Do io_ReadAll
                     "http://localhost:8080/v1/dids/key"
                     (string_of_list_byte (testVectors_ReadFile "testdata/did-input.json").1)
                   = Returns (out, None)) by (apply Hput; eauto 10).
    by rewrite Hrun.
Qed.

(** How a helper passes on what its request did: a panic as a panic, a
    body as it is, an error wrapped with the context and next to the empty
    string. *)
Definition passesOn (context : string)
    (request helper : outcome (string * option error)) : Prop :=
  match request with
  | Panics => helper = Panics
  | Returns (body, None) => helper = Returns (body, None)
  | Returns (_, Some e) => helper = Returns ("", Some (Wrapf e context))
  end.

Lemma append_empty_r (s : string) : s +:+ "" = s.
Proof.
  induction s as [|a s IH]; [done|].
  change (String a (s +:+ "") = String a s). by rewrite IH.
Qed.

Lemma passesOn_put context url json :
  passesOn context (putLogged url json)
    match putLogged url json with
    | Panics => Panics
    | Returns (output, Some err) =>
        Returns ("", Some (Wrapf err (context +:+ output)))
    | Returns (output, None) => Returns (output, None)
    end.
Proof.
  unfold passesOn. destruct (putLogged url json) as [[output [e|]]|] eqn:Hrun; try done.
  apply putLogged_returns, put_error_output in Hrun as ->.
  by rewrite append_empty_r.
Qed.

Lemma passesOn_get context url :
  passesOn context (get http_Get io_ReadAll url)
    match get http_Get io_ReadAll url with
    | Panics => Panics
    | Returns (output, Some err) =>
        Returns ("", Some (Wrapf err (context +:+ output)))
    | Returns (output, None) => Returns (output, None)
    end.
Proof.
  unfold passesOn. destruct (get _ _ url) as [[output [e|]]|] eqn:Hrun; try done.
  apply get_error_output in Hrun as ->. by rewrite append_empty_r.
Qed.

(** [get] and [put] never return a body next to an error: with every error
    comes the empty string, also when a body was read (a status code outside
    200..299 leaves the body in the error's message only). *)
Theorem no_output_with_error url json :
  match get http_Get io_ReadAll url with
  | Returns (out, Some _) => out = ""
  | _ => True
  end ∧
  match putLogged url json with
  | Returns (out, Some _) => out = ""
  | _ => True
  end.
Proof.
  split.
  - destruct (get _ _ url) as [[out [e|]]|] eqn:Hrun; [|done..].
    by eapply get_error_output.
  - destruct (putLogged url json) as [[out [e|]]|] eqn:Hrun; [|done..].
    apply putLogged_returns in Hrun. by eapply put_error_output.
Qed.

(** The ten endpoint helpers pass on what their request did.  Each wraps a
    failure with a context that ends in [with output: ] and means to quote
    the output there; the output that comes with an error is always empty,
    so the context ends there, and the cause follows. *)
Theorem helpers_quote_no_output :
  passesOn "did endpoint with output: "
    (putLogged "http://localhost:8080/v1/dids/key" (getJSONFromFile "did-input.json"))
    CreateDIDKey ∧
  passesOn "did endpoint with output: "
    (putLogged "http://localhost:8080/v1/dids/web" (getJSONFromFile "did-web-input.json"))
    CreateDIDWeb ∧
  (∀ did,
     passesOn "did resolver with output: "
       (get http_Get io_ReadAll ("http://localhost:8080/v1/dids/resolver/" +:+ did))
       (ResolveDID did)) ∧
  passesOn "schema endpoint with output: "
    (putLogged "http://localhost:8080/v1/schemas" (getJSONFromFile "schema-input.json"))
    CreateKYCSchema ∧
  (∀ issuerDID schemaID revocable,
     passesOn "credentials endpoint with output: "
       (putLogged "http://localhost:8080/v1/credentials"
          (strings_ReplaceAll
             (strings_ReplaceAll
                (strings_ReplaceAll
                   (getJSONFromFile (if revocable : bool
                                     then "credential-revocable-input.json"
                                     else "credential-input.json"))
                   "<CREDISSUERID>" issuerDID)
                "<CREDSUBJECTID>" issuerDID)
             "<SCHEMAID>" schemaID))
       (CreateVerifiableCredential issuerDID schemaID revocable)) ∧
  (∀ issuerDID subjectDID,
     passesOn "credentials endpoint with output: "
       (putLogged "http://localhost:8080/v1/credentials"
          (strings_ReplaceAll
             (strings_ReplaceAll (getJSONFromFile "submission-credential-input.json")
                "<CREDISSUERID>" issuerDID)
             "<CREDSUBJECTID>" subjectDID))
       (CreateSubmissionCredential issuerDID subjectDID)) ∧
  (∀ issuerDID schemaID,
     passesOn "manifest endpoint with output: "
       (putLogged "http://localhost:8080/v1/manifests"
          (strings_ReplaceAll
             (strings_ReplaceAll (getJSONFromFile "manifest-input.json")
                "<SCHEMAID>" schemaID)
             "<ISSUERID>" issuerDID))
       (CreateCredentialManifest issuerDID schemaID)) ∧
  passesOn "presentation definition endpoint with output: "
    (putLogged "http://localhost:8080/v1/presentations/definitions"
       (getJSONFromFile "presentation-definition-input.json"))
    CreatePresentationDefinition ∧
  (∀ id,
     passesOn "review submission endpoint with output: "
       (putLogged ("http://localhost:8080/v1/presentations/submissions/" +:+ id +:+ "/review")
          (getJSONFromFile "review-submission-input.json"))
       (ReviewSubmission id)) ∧
  (∀ credAppJWT,
     passesOn "application endpoint with output: "
       (putLogged "http://localhost:8080/v1/manifests/applications"
          (strings_ReplaceAll (getJSONFromFile "application-input-jwt.json")
             "<APPLICATIONJWT>" credAppJWT))
       (SubmitApplication credAppJWT)).
Proof.
  split_and!; intros.
  - apply (passesOn_put "did endpoint with output: ").
  - apply (passesOn_put "did endpoint with output: ").
  - apply (passesOn_get "did resolver with output: ").
  - apply (passesOn_put "schema endpoint with output: ").
  - unfold CreateVerifiableCredential. destruct revocable;
      apply (passesOn_put "credentials endpoint with output: ").
  - apply (passesOn_put "credentials endpoint with output: ").
  - apply (passesOn_put "manifest endpoint with output: ").
  - apply (passesOn_put "presentation definition endpoint with output: ").
  - apply (passesOn_put "review submission endpoint with output: ").
  - apply (passesOn_put "application endpoint with output: ").
Qed.

(** A test vector that [json.Compact] rejects makes the helper that sends it
    panic, before any request is made.  Only the bytes [ReadFile] returned
    count: its error is dropped, so a file that is missing is sent, and
    judged, as whatever bytes came with the error. *)
Theorem rejected_test_vector_panics out e :
  (json_Compact (testVectors_ReadFile "testdata/did-input.json").1 = (out, Some e) →
   CreateDIDKey = Panics) ∧
  (json_Compact (testVectors_ReadFile "testdata/did-web-input.json").1 = (out, Some e) →
   CreateDIDWeb = Panics) ∧
  (json_Compact (testVectors_ReadFile "testdata/schema-input.json").1 = (out, Some e) →
   CreateKYCSchema = Panics) ∧
  (json_Compact (testVectors_ReadFile "testdata/presentation-definition-input.json").1
   = (out, Some e) →
   CreatePresentationDefinition = Panics) ∧
  (json_Compact (testVectors_ReadFile "testdata/review-submission-input.json").1
   = (out, Some e) →
   ∀ id, ReviewSubmission id = Panics).
Proof.
  assert (Hrejected : ∀ url name,
            json_Compact (testVectors_ReadFile ("testdata/" +:+ name)).1 = (out, Some e) →
            putLogged url (getJSONFromFile name) = Panics).
  { intros url name Hbad. unfold putLogged, compactJSONOutput, getJSONFromFile.
    by rewrite list_byte_of_string_of_list_byte, Hbad. }
  unfold CreateDIDKey, CreateDIDWeb, CreateKYCSchema, CreatePresentationDefinition,
    ReviewSubmission.
  split_and!; intros Hbad; intros; by rewrite Hrejected.
Qed.

End Helpers.

(** *** The helpers against the canned server, without test vectors

    No file is embedded: every read fails with no bytes.  The compactor
    rejects the empty document and leaves any other as it is. *)

Definition noVectors (name : string) : list byte * option error :=
  ([], Some (New ("open " +:+ name +:+ ": file does not exist"))).

Definition cannedCompact (src : list byte) : string * option error :=
  match src with
  | [] => ("", Some (New "unexpected end of JSON input"))
  | _ :: _ => (string_of_list_byte src, None)
  end.

Lemma is2xxResponse_inverted_witness :
  is2xxResponse 200 = false ∧ is2xxResponse 404 = true ∧ is2xxResponse (-200) = true ∧
  get cannedGet cannedReadAll "http://localhost:8080/v1/dids/200" = Returns ("ok", None) ∧
  (∃ e, get cannedGet cannedReadAll "http://localhost:8080/v1/dids/404"
        = Returns ("", Some e)) ∧
  putLogged cannedNewRequest (λ req _ _, req) cannedGet cannedReadAll cannedCompact
    "http://localhost:8080/v1/dids/299" "{}" = Returns ("ok", None) ∧
  (∃ e, putLogged cannedNewRequest (λ req _ _, req) cannedGet cannedReadAll cannedCompact
          "http://localhost:8080/v1/dids/404" "{}" = Returns ("", Some e)) ∧
  putLogged cannedNewRequest (λ req _ _, req) cannedGet cannedReadAll cannedCompact
    "http://localhost:8080/v1/dids/200" "" = Panics.
Proof.
  pose proof (is2xxResponse_inverted cannedGet cannedNewRequest (λ req _ _, req)
                cannedGet cannedReadAll cannedCompact)
    as (_ & Hget & _ & Hput & _ & Hpanic).
  destruct (Hget "http://localhost:8080/v1/dids/200" _ _ eq_refl eq_refl) as [H200 _].
  destruct (Hget "http://localhost:8080/v1/dids/404" _ _ eq_refl eq_refl) as [_ H404].
  destruct (Hput "http://localhost:8080/v1/dids/299" "{}" _ _ _ _
              eq_refl eq_refl eq_refl eq_refl) as [H299 _].
  destruct (Hput "http://localhost:8080/v1/dids/404" "{}" _ _ _ _
              eq_refl eq_refl eq_refl eq_refl) as [_ Hput404].
  do 3 (split; [reflexivity|]). split_and!.
  - exact (H200 ltac:(vm_compute; split; discriminate)).
  - exact (H404 ltac:(vm_compute; intros [_ H]; by apply H)).
  - exact (H299 ltac:(vm_compute; split; discriminate)).
  - exact (Hput404 ltac:(vm_compute; intros [_ H]; by apply H)).
  - exact (Hpanic "http://localhost:8080/v1/dids/200" "" _ _ eq_refl).
Defined.

Lemma rejected_test_vector_panics_witness :
  CreateDIDKey cannedNewRequest (λ req _ _, req) cannedGet cannedReadAll
    cannedCompact noVectors = Panics ∧
  (∀ id, ReviewSubmission cannedNewRequest (λ req _ _, req) cannedGet cannedReadAll
           cannedCompact noVectors id = Panics).
Proof.
  pose proof (rejected_test_vector_panics cannedNewRequest (λ req _ _, req) cannedGet
                cannedReadAll cannedCompact noVectors ""
                (New "unexpected end of JSON input")) as (Hkey & _ & _ & _ & Hreview).
  split; [exact (Hkey eq_refl)|exact (Hreview eq_refl)].
Defined.

Lemma get_errors_witness :
  (∃ r e, cannedGet "http://localhost:8080/v1/dids/404" = (r, Some e) ∧
          New "status code not in the 200s. body: ok"
          = Wrapf e ("getting url: " +:+ "http://localhost:8080/v1/dids/404")) ∨
  (∃ resp partial e,
     cannedGet "http://localhost:8080/v1/dids/404" = (Some resp, None) ∧
     cannedReadAll (Body resp) = (partial, Some e) ∧
     New "status code not in the 200s. body: ok" = Wrap e "parsing body") ∨
  (∃ resp body,
     cannedGet "http://localhost:8080/v1/dids/404" = (Some resp, None) ∧
     cannedReadAll (Body resp) = (body, None) ∧
     ¬ (200 ≤ StatusCode resp ≤ 299) ∧
     New "status code not in the 200s. body: ok"
     = New ("status code not in the 200s. body: " +:+ string_of_list_byte body)).
Proof.
  apply (get_errors cannedGet cannedReadAll "http://localhost:8080/v1/dids/404" "").
  reflexivity.
Defined.

Lemma putLogged_errors_witness :
  (∃ r e, cannedNewRequest MethodPut "http://localhost:8080/v1/dids/404"
            (list_byte_of_string "{}") = (r, Some e) ∧
          New "status code 404 not in the 200s. body: ok" = Wrap e "building http req") ∨
  (∃ req, cannedNewRequest MethodPut "http://localhost:8080/v1/dids/404"
            (list_byte_of_string "{}") = (Some req, None) ∧
     ((∃ r e, cannedGet req = (r, Some e) ∧
              New "status code 404 not in the 200s. body: ok"
              = Wrap e "client http client") ∨
      (∃ resp, cannedGet req = (Some resp, None) ∧
         ((∃ partial e, cannedReadAll (Body resp) = (partial, Some e) ∧
                        New "status code 404 not in the 200s. body: ok"
                        = Wrap e "parsing body") ∨
          (∃ body, cannedReadAll (Body resp) = (body, None) ∧
                   ¬ (200 ≤ StatusCode resp ≤ 299) ∧
                   New "status code 404 not in the 200s. body: ok"
                   = New ("status code " +:+ pretty (StatusCode resp)
                          +:+ " not in the 200s. body: "
                          +:+ string_of_list_byte body)))))).
Proof.
  apply (putLogged_errors cannedNewRequest (λ req _ _, req) cannedGet cannedReadAll
           cannedCompact "http://localhost:8080/v1/dids/404" "{}" "").
  vm_compute. reflexivity.
Defined.

End integration.

(** ** [github.com/mr-tron/base58]: the transport encoding of key bytes

    The library is a dependency of the repository, called by the test
    ([base58.Encode(privKey)]).  It is modelled as the encoding it
    implements: the bytes read as one big-endian number, written in radix 58
    over the Bitcoin alphabet, every leading zero byte kept as a leading
    ['1']; decoding refuses the empty string and foreign characters. *)

Module base58.

Local Open Scope N_scope.

(** The number a list of digits stands for, least significant digit first. *)
Fixpoint value (b : N) (ds : list N) : N :=
  match ds with
  | [] => 0
  | d :: rest => d + b * value b rest
  end.

(** The digits of [n] in radix [b], least significant first, none for 0.
    Every step divides by [b], so the bit length of [n] is fuel enough. *)
Fixpoint digitsFrom (b : N) (fuel : nat) (n : N) : list N :=
  match fuel with
  | O => []
  | S fuel' => if n =? 0 then [] else n mod b :: digitsFrom b fuel' (n / b)
  end.

Definition digits (b n : N) : list N := digitsFrom b (N.to_nat (N.size n)) n.

(** Most significant digit first, as bytes and characters are written. *)
Definition fromBigEndian (b : N) (ds : list N) : N := value b (reverse ds).
Definition toBigEndian (b n : N) : list N := reverse (digits b n).

Fixpoint leadingZeros (ds : list N) : nat :=
  match ds with
  | 0 :: rest => S (leadingZeros rest)
  | _ => O
  end.

Fixpoint stripZeros (ds : list N) : list N :=
  match ds with
  | 0 :: rest => stripZeros rest
  | _ => ds
  end.

Definition alphabet : list ascii :=
  list_ascii_of_string "123456789ABCDEFGHJKLMNPQRSTUVWXYZabcdefghijkmnopqrstuvwxyz".

Definition encodeDigit (d : N) : ascii :=
  default "1"%char (alphabet !! N.to_nat d).

Definition decodeDigit (c : ascii) : option N :=
  (λ found, N.of_nat found.1) <$> list_find (λ a, a = c) alphabet.

Definition byteOfN (n : N) : byte := default x00 (Byte.of_N n).

(** [base58.Encode(bin []byte) string]. *)
Definition Encode (bin : list byte) : string :=
  let ns := Byte.to_N <$> bin in
  string_of_list_ascii
    (replicate (leadingZeros ns) "1"%char
     ++ (encodeDigit <$> toBigEndian 58 (fromBigEndian 256 ns)))%list.

(** [base58.Decode(str string) ([]byte, error)]; [None] is the error, on
    the string of length zero and on a character outside the alphabet. *)
Definition Decode (str : string) : option (list byte) :=
  if bool_decide (str = "") then None
  else
    ds ← mapM decodeDigit (list_ascii_of_string str);
    Some (replicate (leadingZeros ds) x00
          ++ (byteOfN <$> toBigEndian 256 (fromBigEndian 58 ds)))%list.

(** *** Radix conversion *)

Lemma value_app b ds1 ds2 :
  value b (ds1 ++ ds2) = value b ds1 + b ^ N.of_nat (length ds1) * value b ds2.
Proof.
  induction ds1 as [|d ds1 IH]; [simpl; lia|].
  change (d + b * value b (ds1 ++ ds2)
          = d + b * value b ds1 + b ^ N.of_nat (S (length ds1)) * value b ds2).
  rewrite IH, Nat2N.inj_succ, N.pow_succ_r'. lia.
Qed.

Lemma value_replicate_0 b z : value b (replicate z 0) = 0.
Proof. induction z as [|z IH]; simpl; [done|]. rewrite IH. lia. Qed.

Section Radix.
Variable b : N.
Hypothesis b_ge_2 : 2 ≤ b.

Lemma digitsFrom_0 fuel : digitsFrom b fuel 0 = [].
Proof. by destruct fuel. Qed.

Lemma value_digitsFrom fuel n :
  n < 2 ^ N.of_nat fuel → value b (digitsFrom b fuel n) = n.
Proof.
  revert n. induction fuel as [|fuel IH]; intros n Hn.
  - simpl in *. lia.
  - simpl digitsFrom. destruct (N.eqb_spec n 0) as [->|Hne]; [done|].
    simpl value. rewrite IH.
    + pose proof (N.div_mod n b ltac:(lia)). lia.
    + apply N.Div0.div_lt_upper_bound.
      rewrite Nat2N.inj_succ, N.pow_succ_r' in Hn. nia.
Qed.

Lemma Forall_digitsFrom fuel n : Forall (λ d, d < b) (digitsFrom b fuel n).
Proof.
  revert n. induction fuel as [|fuel IH]; intros n; simpl; [constructor|].
  destruct (n =? 0); constructor; [|apply IH].
  apply N.mod_lt. lia.
Qed.

(** A list of digits is canonical when its most significant digit, the last
    one, is not 0. *)
Definition canonical (ds : list N) : Prop := last ds ≠ Some 0.

Lemma canonical_digitsFrom fuel n :
  n < 2 ^ N.of_nat fuel → canonical (digitsFrom b fuel n).
Proof.
  unfold canonical. revert n. induction fuel as [|fuel IH]; intros n Hn; [done|].
  simpl. destruct (N.eqb_spec n 0) as [->|Hne]; [done|].
  assert (Hq : n / b < 2 ^ N.of_nat fuel).
  { apply N.Div0.div_lt_upper_bound.
    rewrite Nat2N.inj_succ, N.pow_succ_r' in Hn. nia. }
  destruct (digitsFrom b fuel (n / b)) as [|d rest] eqn:Hds.
  - simpl. intros [= Hmod].
    pose proof (value_digitsFrom fuel (n / b) Hq) as Hv. rewrite Hds in Hv. simpl in Hv.
    pose proof (N.div_mod n b ltac:(lia)). lia.
  - rewrite last_cons_cons. rewrite <- Hds. by apply IH.
Qed.

Lemma value_pos ds : ds ≠ [] → canonical ds → 0 < value b ds.
Proof.
  unfold canonical. induction ds as [|d [|d' rest] IH]; intros Hne Hlast; [done| |].
  - simpl in *. destruct (N.eq_dec d 0) as [->|]; [done|lia].
  - rewrite last_cons_cons in Hlast. specialize (IH ltac:(done) Hlast).
    change (0 < d + b * value b (d' :: rest)).
    assert (0 < b * value b (d' :: rest)) by (apply N.mul_pos_pos; lia). lia.
Qed.

Lemma digitsFrom_value fuel ds :
  Forall (λ d, d < b) ds → canonical ds →
  value b ds < 2 ^ N.of_nat fuel →
  digitsFrom b fuel (value b ds) = ds.
Proof.
  revert fuel. induction ds as [|d rest IH]; intros fuel Hall Hcan Hlt.
  - apply digitsFrom_0.
  - apply Forall_cons in Hall as [Hd Hall].
    assert (Hpos : 0 < value b (d :: rest)) by by apply value_pos.
    destruct fuel as [|fuel].
    { change (N.of_nat 0) with 0 in Hlt. rewrite N.pow_0_r in Hlt. lia. }
    cbn [digitsFrom value] in *.
    destruct (N.eqb_spec (d + b * value b rest) 0); [lia|].
    assert (Hmod : (d + b * value b rest) mod b = d).
    { rewrite N.mul_comm, N.Div0.mod_add. by apply N.mod_small. }
    assert (Hdiv : (d + b * value b rest) / b = value b rest).
    { rewrite N.mul_comm, N.div_add by lia. rewrite N.div_small by done. lia. }
    rewrite Hmod, Hdiv. f_equal.
    destruct rest as [|d' rest']; [apply digitsFrom_0|].
    apply IH; [done| |].
    + unfold canonical in *. by rewrite last_cons_cons in Hcan.
    + rewrite Nat2N.inj_succ, N.pow_succ_r' in Hlt. nia.
Qed.

Lemma size_fuel n : n < 2 ^ N.of_nat (N.to_nat (N.size n)).
Proof. rewrite N2Nat.id. apply N.size_gt. Qed.

Lemma value_digits n : value b (digits b n) = n.
Proof. apply value_digitsFrom, size_fuel. Qed.

Lemma digits_value ds :
  Forall (λ d, d < b) ds → canonical ds → digits b (value b ds) = ds.
Proof. intros Hall Hcan. by apply digitsFrom_value; [| |apply size_fuel]. Qed.

End Radix.

(** *** Leading zeros *)

Lemma leadingZeros_stripZeros ds :
  ds = (replicate (leadingZeros ds) 0 ++ stripZeros ds)%list.
Proof.
  induction ds as [|d rest IH]; [done|].
  destruct d as [|p]; [|done]. simpl. by rewrite <- IH.
Qed.

Lemma head_stripZeros ds : head (stripZeros ds) ≠ Some 0.
Proof. induction ds as [|[|p] rest IH]; simpl; done. Qed.

Lemma leadingZeros_replicate_app z ds :
  head ds ≠ Some 0 → leadingZeros (replicate z 0 ++ ds) = (z + leadingZeros ds)%nat.
Proof. intros _. induction z as [|z IH]; simpl; [done|by rewrite IH]. Qed.

Lemma leadingZeros_head ds : head ds ≠ Some 0 → leadingZeros ds = O.
Proof. destruct ds as [|[|p] rest]; simpl; done. Qed.

Lemma fromBigEndian_zeros b z ds :
  fromBigEndian b (replicate z 0 ++ ds) = fromBigEndian b ds.
Proof.
  unfold fromBigEndian.
  rewrite reverse_app, reverse_replicate, value_app, value_replicate_0. lia.
Qed.

Lemma fromBigEndian_toBigEndian b n :
  2 ≤ b → fromBigEndian b (toBigEndian b n) = n.
Proof.
  intros Hb. unfold fromBigEndian, toBigEndian.
  rewrite reverse_involutive. by apply value_digits.
Qed.

Lemma toBigEndian_fromBigEndian b ds :
  2 ≤ b → Forall (λ d, d < b) ds → head ds ≠ Some 0 →
  toBigEndian b (fromBigEndian b ds) = ds.
Proof.
  intros Hb Hall Hhead. unfold fromBigEndian, toBigEndian.
  rewrite digits_value; [apply reverse_involutive|done| |].
  - by apply Forall_reverse.
  - unfold canonical. by rewrite last_reverse.
Qed.

Lemma Forall_toBigEndian b n : 2 ≤ b → Forall (λ d, d < b) (toBigEndian b n).
Proof. intros Hb. apply Forall_reverse. by apply Forall_digitsFrom. Qed.

Lemma head_toBigEndian b n : 2 ≤ b → head (toBigEndian b n) ≠ Some 0.
Proof.
  intros Hb. unfold toBigEndian. rewrite head_reverse.
  apply canonical_digitsFrom; [done|apply size_fuel].
Qed.

(** *** The alphabet *)

Lemma decodeDigit_encodeDigit d : d < 58 → decodeDigit (encodeDigit d) = Some d.
Proof.
  intros Hd.
  assert (Hall : forallb (λ i, bool_decide
                   (decodeDigit (encodeDigit (N.of_nat i)) = Some (N.of_nat i)))
                   (seq 0 58) = true) by (vm_compute; reflexivity).
  rewrite forallb_forall in Hall.
  specialize (Hall (N.to_nat d)). rewrite N2Nat.id in Hall.
  eapply bool_decide_eq_true_1, Hall, in_seq. lia.
Qed.

Lemma mapM_decodeDigit ds :
  Forall (λ d, d < 58) ds → mapM decodeDigit (encodeDigit <$> ds) = Some ds.
Proof.
  induction 1 as [|d ds Hd _ IH]; [done|].
  rewrite fmap_cons. cbn [mapM]. rewrite decodeDigit_encodeDigit by done.
  simpl. by rewrite IH.
Qed.

Lemma byteOfN_to_N (x : byte) : byteOfN (Byte.to_N x) = x.
Proof. unfold byteOfN. by rewrite Byte.of_to_N. Qed.

Lemma Forall_to_N (bin : list byte) : Forall (λ d, d < 256) (Byte.to_N <$> bin).
Proof.
  apply Forall_fmap, Forall_forall. intros x _. simpl.
  pose proof (Byte.to_N_bounded x). lia.
Qed.

(** *** The round trip *)

(** Some byte gives some character: a leading zero byte its ['1'], any other
    first byte a number that is not 0, which has a digit. *)
Lemma Encode_nonempty (bin : list byte) : bin ≠ [] → Encode bin ≠ "".
Proof.
  intros Hbin. unfold Encode. set (ns := Byte.to_N <$> bin).
  assert (Hns : ns ≠ []) by (unfold ns; by destruct bin).
  destruct (leadingZeros ns) as [|z] eqn:Hz; [|done].
  assert (Hhead : head ns ≠ Some 0) by (destruct ns as [|[|p] rest]; done).
  assert (Hpos : 0 < fromBigEndian 256 ns).
  { apply value_pos; [lia| |].
    - intros Hrev. apply (f_equal reverse) in Hrev.
      by rewrite reverse_involutive in Hrev.
    - unfold canonical. by rewrite last_reverse. }
  pose proof (fromBigEndian_toBigEndian 58 (fromBigEndian 256 ns) ltac:(lia)) as Hv.
  destruct (toBigEndian 58 (fromBigEndian 256 ns)) as [|d ds]; [|done].
  unfold fromBigEndian in Hv at 1. simpl in Hv. lia.
Qed.

(** Decoding what [Encode] wrote for some bytes gives the bytes back, leading
    zero bytes included. *)
Lemma Decode_Encode (bin : list byte) : bin ≠ [] → Decode (Encode bin) = Some bin.
Proof.
  intros Hbin. unfold Decode.
  rewrite bool_decide_eq_false_2 by by apply Encode_nonempty.
  unfold Encode.
  set (ns := Byte.to_N <$> bin).
  set (ds := toBigEndian 58 (fromBigEndian 256 ns)).
  rewrite list_ascii_of_string_of_list_ascii.
  assert (Hds : Forall (λ d, d < 58) ds) by (apply Forall_toBigEndian; lia).
  assert (Hhead : head ds ≠ Some 0) by (apply head_toBigEndian; lia).
  assert (Hone : replicate (leadingZeros ns) "1"%char
                 = encodeDigit <$> replicate (leadingZeros ns) 0).
  { by rewrite fmap_replicate. }
  rewrite Hone, <- fmap_app, mapM_decodeDigit.
  2:{ apply Forall_app. split; [|done]. apply Forall_replicate. lia. }
  simpl. f_equal.
  rewrite leadingZeros_replicate_app, (leadingZeros_head ds), Nat.add_0_r by done.
  rewrite fromBigEndian_zeros. unfold ds.
  rewrite fromBigEndian_toBigEndian by lia.
  rewrite (leadingZeros_stripZeros ns) at 2. rewrite fromBigEndian_zeros.
  rewrite toBigEndian_fromBigEndian; [|lia| |apply head_stripZeros].
  2:{ pose proof (Forall_to_N bin) as Hall. fold ns in Hall.
      rewrite (leadingZeros_stripZeros ns) in Hall.
      by apply Forall_app in Hall as [_ ?]. }
  change x00 with (byteOfN 0). rewrite <- fmap_replicate, <- fmap_app.
  rewrite <- leadingZeros_stripZeros. unfold ns.
  rewrite <- list_fmap_compose. rewrite <- (list_fmap_id bin) at 2.
  apply list_fmap_ext. intros _ x _. apply byteOfN_to_N.
Qed.

Example Encode_hello :
  Encode (list_byte_of_string "Hello World!") = "2NEpo7TZRRrLZSi2U".
Proof. vm_compute. reflexivity. Qed.

Example Encode_leading_zeros :
  Encode [x00; x00; x28; x7f; xb4; xcd] = "11233QC4".
Proof. vm_compute. reflexivity. Qed.

Example Decode_rejects_zero_letter : Decode "0OIl" = None.
Proof. vm_compute. reflexivity. Qed.

Example Decode_rejects_empty : Decode (Encode []) = None.
Proof. vm_compute. reflexivity. Qed.

End base58.

(** ** The clock and the persisted timestamp format *)

Module clock.

Local Open Scope Z_scope.

(** Modelled from the spec: the clock contract [now() -> timestamp] and the
    persisted format, fixed UTC ISO-8601 as in [2023-06-23T00:00:00Z]; the
    clock implementations are a dependency.  An instant is a count of seconds
    since 1970-01-01T00:00:00Z; the calendar is the proleptic Gregorian one,
    computed by eras of 400 years that start on 1 March. *)
Definition Instant : Type := Z.

Definition civilFromDays (days : Z) : Z * Z * Z :=
  let z := days + 719468 in
  let era := z / 146097 in
  let doe := z - era * 146097 in
  let yoe := (doe - doe / 1460 + doe / 36524 - doe / 146096) / 365 in
  let doy := doe - (365 * yoe + yoe / 4 - yoe / 100) in
  let mp := (5 * doy + 2) / 153 in
  let d := doy - (153 * mp + 2) / 5 + 1 in
  let m := if mp <? 10 then mp + 3 else mp - 9 in
  let y := yoe + era * 400 in
  (if m <=? 2 then y + 1 else y, m, d).

Definition daysFromCivil (year month day : Z) : Z :=
  let y := if month <=? 2 then year - 1 else year in
  let era := y / 400 in
  let yoe := y - era * 400 in
  let mp := if month >? 2 then month - 3 else month + 9 in
  let doy := (153 * mp + 2) / 5 + day - 1 in
  let doe := yoe * 365 + yoe / 4 - yoe / 100 + doy in
  era * 146097 + doe - 719468.

(** [time.Date(year, month, day, hour, min, sec, 0, time.UTC)], the instant a
    test sets its mock clock to. *)
Definition Date (year month day hour min sec : Z) : Instant :=
  daysFromCivil year month day * 86400 + hour * 3600 + min * 60 + sec.

Definition digit (n : Z) : ascii := ascii_of_nat (48 + Z.to_nat (n mod 10)).

Definition pad2 (n : Z) : string :=
  String (digit (n / 10)) (String (digit n) "").

Definition pad4 (n : Z) : string :=
  String (digit (n / 1000)) (String (digit (n / 100)) (pad2 n)).

(** Modelled from the spec: the persisted timestamp of an instant (the code
    that formats it is in the missing service files), [YYYY-MM-DDTHH:MM:SSZ],
    for the years 0 to 9999. *)
Definition Format (t : Instant) : string :=
  let secs := t mod 86400 in
  let '(y, m, d) := civilFromDays (t / 86400) in
  pad4 y +:+ "-" +:+ pad2 m +:+ "-" +:+ pad2 d +:+ "T"
  +:+ pad2 (secs / 3600) +:+ ":" +:+ pad2 (secs mod 3600 / 60) +:+ ":"
  +:+ pad2 (secs mod 60) +:+ "Z".

Lemma Format_length t : String.length (Format t) = 20%nat.
Proof. unfold Format. by destruct (civilFromDays _) as [[y m] d]. Qed.

Lemma Format_nonempty t : Format t ≠ "".
Proof. intros H. pose proof (Format_length t) as Hl. by rewrite H in Hl. Qed.

Example Format_epoch : Format 0 = "1970-01-01T00:00:00Z".
Proof. vm_compute. reflexivity. Qed.

Example Format_mock_clock : Format (Date 2023 6 23 0 0 0) = "2023-06-23T00:00:00Z".
Proof. vm_compute. reflexivity. Qed.

Example Format_leap_day : Format (Date 2024 2 29 23 59 59) = "2024-02-29T23:59:59Z".
Proof. vm_compute. reflexivity. Qed.

Example Date_mock_clock : Date 2023 6 23 0 0 0 = 1687478400.
Proof. vm_compute. reflexivity. Qed.

End clock.

(** ** The key store service

    The service itself ([NewKeyStoreService], [StoreKey], [GetKey],
    [RevokeKey], [Sign]) is in files of the [keystore] package other than its
    test; the test gives the calls, the requests and the fields of the
    response. *)

Module keystore.

(** Modelled from the spec: the error kinds of the key lifecycle service
    (NotFound, Conflict, PermissionDenied), each error carrying a message.
    The spec names no kind for a request that breaks an input constraint (an
    empty id, a key that does not decode); it is [InvalidArgument] here. *)
Inductive ErrorKind : Type := NotFound | Conflict | PermissionDenied | InvalidArgument.

Record Error : Type := mkError { Kind : ErrorKind; Message : string }.

(** [strings.Contains], which [assert.ErrorContains] of the test applies to
    the error's message. *)
Fixpoint Contains (s substr : string) : bool :=
  String.prefix substr s
  || match s with
     | EmptyString => false
     | String _ rest => Contains rest substr
     end.

(** Modelled from the spec: the Key Record, whose declaration is missing (key
    id, key type tag, controller, private key material as raw bytes,
    revocation flag, revocation timestamp, empty while the key is not
    revoked). *)
Record KeyRecord : Type := mkKeyRecord {
  recID : string;
  recKeyType : string;
  recController : string;
  recKey : list byte;
  recRevoked : bool;
  recRevokedAt : string
}.

(** What [GetKey] answers; the test reads [Key], [Revoked] and [RevokedAt]. *)
Record GetKeyResponse : Type := mkGetKeyResponse {
  Key : list byte;
  Revoked : bool;
  RevokedAt : string
}.

(** Modelled from the spec: the service, whose declaration is missing, owns
    a Key Record Store ([get] and [put] by key id) and reads an injected
    clock; [Clock] is the instant the clock shows, which the service never
    sets. *)
Record Service : Type := mkService {
  records : gmap string KeyRecord;
  Clock : clock.Instant
}.

(** Modelled from the spec: what [RevokeKey] does with a key that is revoked
    already is left to the implementer, who either answers success and
    changes nothing, or reports the condition. *)
Inductive RevokePolicy : Type := Idempotent | RejectRevoked.

Section Service.

(** The signing primitive of the trusted crypto library, given the key type,
    the raw key bytes and the payload. *)
Context {Signature : Type}.
Variable sign : string → list byte → string → Signature.
Variable policy : RevokePolicy.

(** Modelled from the spec: [StoreKey(id, type, controller,
    privateKeyEncoded)], whose source is missing.  The id is non-empty and
    not in use (overwriting is a conflict); the key is decoded from its
    transport encoding and a new record with [revoked = false] is written. *)
Definition StoreKey (s : Service) (id type controller privateKeyEncoded : string)
  : Service * option Error :=
  if bool_decide (id = "") then
    (s, Some (mkError InvalidArgument "key id must not be empty"))
  else
    match records s !! id with
    | Some _ => (s, Some (mkError Conflict ("key already stored: " +:+ id)))
    | None =>
        match base58.Decode privateKeyEncoded with
        | None => (s, Some (mkError InvalidArgument ("could not decode key: " +:+ id)))
        | Some raw =>
            (mkService
               (<[id := mkKeyRecord id type controller raw false ""]> (records s))
               (Clock s),
             None)
        end
    end.

(** Modelled from the spec: [GetKey(id)], whose source is missing, returns
    the raw key bytes, the revocation flag and the revocation timestamp, or
    NotFound. *)
Definition GetKey (s : Service) (id : string) : option GetKeyResponse * option Error :=
  match records s !! id with
  | None => (None, Some (mkError NotFound ("key not found: " +:+ id)))
  | Some r => (Some (mkGetKeyResponse (recKey r) (recRevoked r) (recRevokedAt r)), None)
  end.

(** Modelled from the spec: [RevokeKey(id)], whose source is missing, fails
    with NotFound on an absent id; the first revocation stamps [revokedAt]
    with the clock's current time in the fixed format and writes the record
    back; a later one follows the policy and writes nothing. *)
Definition RevokeKey (s : Service) (id : string) : Service * option Error :=
  match records s !! id with
  | None => (s, Some (mkError NotFound ("key not found: " +:+ id)))
  | Some r =>
      if recRevoked r then
        match policy with
        | Idempotent => (s, None)
        | RejectRevoked => (s, Some (mkError Conflict ("key already revoked: " +:+ id)))
        end
      else
        (mkService
           (<[id := mkKeyRecord (recID r) (recKeyType r) (recController r) (recKey r)
                      true (clock.Format (Clock s))]> (records s))
           (Clock s),
         None)
  end.

(** Modelled from the spec: [Sign(id, payload)], whose source is missing,
    fetches the record, refuses a revoked key with a permission-denied error
    that says so, and otherwise signs the payload with the key type and the
    raw bytes. *)
Definition Sign (s : Service) (id payload : string) : option Signature * option Error :=
  match records s !! id with
  | None => (None, Some (mkError NotFound ("key not found: " +:+ id)))
  | Some r =>
      if recRevoked r then
        (None, Some (mkError PermissionDenied ("cannot use revoked key: " +:+ id)))
      else (Some (sign (recKeyType r) (recKey r) payload), None)
  end.

(** A call made on the service, or the clock moving to another instant. *)
Inductive Call : Type :=
| CallStoreKey (id type controller privateKeyEncoded : string)
| CallGetKey (id : string)
| CallRevokeKey (id : string)
| CallSign (id payload : string)
| ClockSet (t : clock.Instant).

(** The service after a call, whatever the call answered. *)
Definition step (s : Service) (c : Call) : Service :=
  match c with
  | CallStoreKey id type controller privateKeyEncoded =>
      (StoreKey s id type controller privateKeyEncoded).1
  | CallGetKey _ => s
  | CallRevokeKey id => (RevokeKey s id).1
  | CallSign _ _ => s
  | ClockSet t => mkService (records s) t
  end.

Definition run (calls : list Call) (s : Service) : Service := foldl step s calls.

(** [createKeyStoreService] of the test: an empty store and a mock clock set
    to 2023-06-23 00:00:00 UTC. *)
Definition createKeyStoreService : Service :=
  mkService ∅ (clock.Date 2023 6 23 0 0 0).

(** *** Properties of the key lifecycle *)

Lemma Contains_prefix substr rest : Contains (substr +:+ rest) substr = true.
Proof.
  assert (H : String.prefix substr (substr +:+ rest) = true).
  { induction substr as [|a substr IH]; simpl; [by destruct rest|].
    by destruct (ascii_dec a a). }
  destruct (substr +:+ rest); simpl in *; by rewrite H.
Qed.

(** A call never touches the record of a revoked key: [StoreKey] finds the
    id in use, [RevokeKey] finds the key revoked, the others only read. *)
Lemma step_revoked s c id r :
  records s !! id = Some r → recRevoked r = true →
  records (step s c) !! id = Some r.
Proof.
  intros Hr Hrev. destruct c as [id' ty ctl enc|id'|id'|id' payload|t]; simpl; try done.
  - unfold StoreKey. case_bool_decide; [done|].
    destruct (records s !! id') as [r'|] eqn:Hr'; [done|].
    destruct (base58.Decode enc); [|done]. simpl.
    rewrite lookup_insert_ne; [done|congruence].
  - unfold RevokeKey. destruct (records s !! id') as [r'|] eqn:Hr'; [|done].
    destruct (recRevoked r') eqn:Hrev'; [by destruct policy|]. simpl.
    rewrite lookup_insert_ne; [done|congruence].
Qed.

Lemma run_revoked calls s id r :
  records s !! id = Some r → recRevoked r = true →
  records (run calls s) !! id = Some r.
Proof.
  revert s. induction calls as [|c calls IH]; intros s Hr Hrev; [done|].
  apply IH; [by apply step_revoked|done].
Qed.

(** A [RevokeKey] that answers success leaves the key revoked. *)
Lemma RevokeKey_ok_revoked s id s' :
  RevokeKey s id = (s', None) →
  ∃ r, records s' !! id = Some r ∧ recRevoked r = true.
Proof.
  unfold RevokeKey. destruct (records s !! id) as [r|] eqn:Hr; [|done].
  destruct (recRevoked r) eqn:Hrev.
  - destruct policy; [|done]. intros [= <-]. eauto.
  - intros [= <-]. simpl. rewrite lookup_insert_eq. eauto.
Qed.

Lemma Sign_revoked s id r payload :
  records s !! id = Some r → recRevoked r = true →
  Sign s id payload
  = (None, Some (mkError PermissionDenied ("cannot use revoked key: " +:+ id))).
Proof. intros Hr Hrev. unfold Sign. by rewrite Hr, Hrev. Qed.

(** C1: a revoked key does not sign.  Once [RevokeKey] has answered success
    for an id, then after any further calls and clock changes [Sign] on that
    id returns no signature and a permission-denied error whose message
    contains [cannot use revoked key], for every payload; the same holds in
    any state whose record of the id has the revoked flag set. *)
Theorem Sign_revoked_denied s id s' calls payload :
  RevokeKey s id = (s', None) →
  (∃ e, Sign (run calls s') id payload = (None, Some e) ∧
        Kind e = PermissionDenied ∧
        Contains (Message e) "cannot use revoked key" = true) ∧
  (∀ s0 r, records s0 !! id = Some r → recRevoked r = true →
     ∃ e, Sign s0 id payload = (None, Some e) ∧
          Kind e = PermissionDenied ∧
          Contains (Message e) "cannot use revoked key" = true).
Proof.
  intros Hrevoke.
  assert (Hstate : ∀ s0 r, records s0 !! id = Some r → recRevoked r = true →
     ∃ e, Sign s0 id payload = (None, Some e) ∧
          Kind e = PermissionDenied ∧
          Contains (Message e) "cannot use revoked key" = true).
  { intros s0 r Hr Hrev. eexists. split; [by eapply Sign_revoked|].
    split; [done|]. apply (Contains_prefix "cannot use revoked key" (": " +:+ id)). }
  split; [|exact Hstate].
  apply RevokeKey_ok_revoked in Hrevoke as (r & Hr & Hrev).
  apply (Hstate _ r); [by apply run_revoked|done].
Qed.

(** C2: revoking a stored key that is not revoked succeeds, and [GetKey] then
    reports the key revoked, with the clock's instant at the revocation in
    the fixed format as [RevokedAt]; for the mock clock of the test that is
    [2023-06-23T00:00:00Z]. *)
Theorem RevokeKey_stamps_clock s id r :
  records s !! id = Some r → recRevoked r = false →
  (∃ s', RevokeKey s id = (s', None) ∧
         GetKey s' id
         = (Some (mkGetKeyResponse (recKey r) true (clock.Format (Clock s))), None)) ∧
  (Clock s = clock.Date 2023 6 23 0 0 0 →
   ∃ s', RevokeKey s id = (s', None) ∧
         GetKey s' id
         = (Some (mkGetKeyResponse (recKey r) true "2023-06-23T00:00:00Z"), None)).
Proof.
  intros Hr Hrev.
  assert (Hgen : ∃ s', RevokeKey s id = (s', None) ∧
         GetKey s' id
         = (Some (mkGetKeyResponse (recKey r) true (clock.Format (Clock s))), None)).
  { unfold RevokeKey. rewrite Hr, Hrev. eexists. split; [done|].
    unfold GetKey. simpl. by rewrite lookup_insert_eq. }
  split; [exact Hgen|].
  intros Hclock. rewrite Hclock in Hgen. exact Hgen.
Qed.

(** C3: storing the base58 encoding of key bytes (some bytes: the encoding of
    no bytes is the empty string, which does not decode) under a fresh,
    non-empty id succeeds, and [GetKey] right after returns those bytes, not
    revoked, with an empty [RevokedAt]. *)
Theorem StoreKey_GetKey_roundtrip s id type controller (k : list byte) :
  k ≠ [] → id ≠ "" → records s !! id = None →
  ∃ s', StoreKey s id type controller (base58.Encode k) = (s', None) ∧
        GetKey s' id = (Some (mkGetKeyResponse k false ""), None).
Proof.
  intros Hk Hid Hfresh. unfold StoreKey.
  rewrite bool_decide_eq_false_2 by done.
  rewrite Hfresh, base58.Decode_Encode by done. eexists. split; [done|].
  unfold GetKey. simpl. by rewrite lookup_insert_eq.
Qed.

(** C4: revocation is terminal.  The record of a revoked key stays as it is
    through every sequence of calls and clock changes, so its flag is never
    false again and its timestamp never changes; in particular [GetKey]
    answers the same before and after a second [RevokeKey], at whatever
    instant and under either policy. *)
Theorem revocation_terminal s id r calls :
  records s !! id = Some r → recRevoked r = true →
  records (run calls s) !! id = Some r ∧
  (∀ t, GetKey (RevokeKey (mkService (records s) t) id).1 id
        = (Some (mkGetKeyResponse (recKey r) true (recRevokedAt r)), None)).
Proof.
  intros Hr Hrev. split; [by apply run_revoked|].
  intros t. unfold GetKey.
  pose proof (step_revoked (mkService (records s) t) (CallRevokeKey id) id r Hr Hrev)
    as Hsame.
  simpl in Hsame. by rewrite Hsame, Hrev.
Qed.

(** The invariant of the data model: through every sequence of calls, a
    record is revoked exactly when its timestamp is not empty. *)
Definition consistent (s : Service) : Prop :=
  ∀ id r, records s !! id = Some r → (recRevoked r = true ↔ recRevokedAt r ≠ "").

Lemma step_consistent s c : consistent s → consistent (step s c).
Proof.
  intros Hs. destruct c as [id' ty ctl enc|id'|id'|id' payload|t]; simpl; try done.
  - unfold StoreKey. case_bool_decide; [done|].
    destruct (records s !! id') as [r'|] eqn:Hr'; [done|].
    destruct (base58.Decode enc); [|done]. intros id r. simpl.
    destruct (decide (id' = id)) as [->|Hne].
    + rewrite lookup_insert_eq. by intros [= <-].
    + rewrite lookup_insert_ne by done. apply Hs.
  - unfold RevokeKey. destruct (records s !! id') as [r'|] eqn:Hr'; [|done].
    destruct (recRevoked r') eqn:Hrev'; [by destruct policy|]. intros id r. simpl.
    destruct (decide (id' = id)) as [->|Hne].
    + rewrite lookup_insert_eq. intros [= <-]. simpl.
      split; [intros _; apply clock.Format_nonempty|done].
    + rewrite lookup_insert_ne by done. apply Hs.
Qed.

Lemma run_consistent calls s : consistent s → consistent (run calls s).
Proof.
  revert s. induction calls as [|c calls IH]; intros s Hs; [done|].
  by apply IH, step_consistent.
Qed.

End Service.

(** *** The tests of the package, run on the service

    [TestStoreAndGetKey] and [TestRevokeKey], for any private key the
    generator may hand out, any signing primitive and either policy: each
    assertion of the test holds. *)

Lemma TestStoreAndGetKey_passes (privKey : list byte) :
  privKey ≠ [] →
  let keyStore := createKeyStoreService in
  let stored := StoreKey keyStore "test-id" "Ed25519" "test-controller"
                  (base58.Encode privKey) in
  stored.2 = None ∧
  GetKey stored.1 "test-id" = (Some (mkGetKeyResponse privKey false ""), None).
Proof.
  intros Hkey. cbv zeta. unfold StoreKey, createKeyStoreService. cbn [records Clock].
  rewrite bool_decide_eq_false_2 by discriminate.
  rewrite lookup_empty, base58.Decode_Encode by done. split; [done|].
  unfold GetKey. cbn [fst records]. by rewrite lookup_insert_eq.
Qed.

Lemma TestRevokeKey_passes {Signature} (sign : string → list byte → string → Signature)
    (policy : RevokePolicy) (privKey : list byte) :
  privKey ≠ [] →
  let keyID := "test-revocation-id" in
  let keyStore := createKeyStoreService in
  let stored := StoreKey keyStore keyID "Ed25519" "test-revocation-controller"
                  (base58.Encode privKey) in
  let revoked := RevokeKey policy stored.1 keyID in
  stored.2 = None ∧
  GetKey stored.1 keyID = (Some (mkGetKeyResponse privKey false ""), None) ∧
  revoked.2 = None ∧
  GetKey revoked.1 keyID
  = (Some (mkGetKeyResponse privKey true "2023-06-23T00:00:00Z"), None) ∧
  ∃ err, Sign sign revoked.1 keyID "sampleDataAsString" = (None, Some err) ∧
         Contains (Message err) "cannot use revoked key" = true.
Proof.
  intros Hkey. cbv zeta. unfold StoreKey, createKeyStoreService. cbn [records Clock].
  rewrite bool_decide_eq_false_2 by discriminate.
  rewrite lookup_empty, base58.Decode_Encode by done. cbn [fst snd].
  unfold RevokeKey, GetKey, Sign. cbn [records Clock].
  rewrite !lookup_insert_eq. cbn [recRevoked recKey recRevokedAt fst snd records].
  rewrite !lookup_insert_eq. cbn [recRevoked recKey recRevokedAt].
  rewrite clock.Format_mock_clock.
  split_and!; try done. eexists. split; [done|]. reflexivity.
Qed.

(** *** The service on concrete keys *)

(** A signing primitive for the runs below: the signature of a payload is the
    payload behind the key type. *)
Definition tagSign (type : string) (key : list byte) (payload : string) : string :=
  type +:+ ":" +:+ payload.

(** The service of the test once [test-revocation-id] is stored. *)
Definition storedOnce : Service :=
  mkService
    {[ "test-revocation-id" :=
         mkKeyRecord "test-revocation-id" "Ed25519" "test-revocation-controller"
           [x01; x02; x03] false "" ]}
    (clock.Date 2023 6 23 0 0 0).

Lemma Sign_revoked_denied_witness :
  (∃ e, Sign tagSign
          (run RejectRevoked
             [CallStoreKey "test-revocation-id" "Ed25519" "other" "2g";
              ClockSet (clock.Date 2024 1 1 0 0 0);
              CallRevokeKey "test-revocation-id"]
             (RevokeKey RejectRevoked storedOnce "test-revocation-id").1)
          "test-revocation-id" "sampleDataAsString" = (None, Some e) ∧
        Kind e = PermissionDenied ∧
        Contains (Message e) "cannot use revoked key" = true) ∧
  (∀ s0 r, records s0 !! "test-revocation-id" = Some r → recRevoked r = true →
     ∃ e, Sign tagSign s0 "test-revocation-id" "sampleDataAsString" = (None, Some e) ∧
          Kind e = PermissionDenied ∧
          Contains (Message e) "cannot use revoked key" = true).
Proof.
  apply (Sign_revoked_denied tagSign RejectRevoked storedOnce "test-revocation-id").
  vm_compute. reflexivity.
Defined.

Lemma RevokeKey_stamps_clock_witness :
  (∃ s', RevokeKey Idempotent storedOnce "test-revocation-id" = (s', None) ∧
         GetKey s' "test-revocation-id"
         = (Some (mkGetKeyResponse [x01; x02; x03] true
                    (clock.Format (Clock storedOnce))), None)) ∧
  (Clock storedOnce = clock.Date 2023 6 23 0 0 0 →
   ∃ s', RevokeKey Idempotent storedOnce "test-revocation-id" = (s', None) ∧
         GetKey s' "test-revocation-id"
         = (Some (mkGetKeyResponse [x01; x02; x03] true "2023-06-23T00:00:00Z"), None)).
Proof.
  apply (RevokeKey_stamps_clock Idempotent storedOnce "test-revocation-id"
           (mkKeyRecord "test-revocation-id" "Ed25519" "test-revocation-controller"
              [x01; x02; x03] false "")).
  - vm_compute. reflexivity.
  - reflexivity.
Defined.

Lemma StoreKey_GetKey_roundtrip_witness :
  ∃ s', StoreKey storedOnce "test-id" "Ed25519" "test-controller"
          (base58.Encode [x00; x00; x28; x7f; xb4; xcd]) = (s', None) ∧
        GetKey s' "test-id"
        = (Some (mkGetKeyResponse [x00; x00; x28; x7f; xb4; xcd] false ""), None).
Proof.
  apply (StoreKey_GetKey_roundtrip storedOnce "test-id" "Ed25519" "test-controller").
  - discriminate.
  - discriminate.
  - vm_compute. reflexivity.
Defined.

(** The record of [test-revocation-id] once revoked at the mock clock. *)
Definition revokedRecord : KeyRecord :=
  mkKeyRecord "test-revocation-id" "Ed25519" "test-revocation-controller"
    [x01; x02; x03] true "2023-06-23T00:00:00Z".

Lemma revocation_terminal_witness :
  records
    (run Idempotent
       [CallRevokeKey "test-revocation-id";
        CallStoreKey "test-revocation-id" "Ed25519" "test-revocation-controller" "Ldp";
        CallSign "test-revocation-id" "sampleDataAsString";
        ClockSet (clock.Date 2030 1 1 0 0 0);
        CallRevokeKey "test-revocation-id";
        CallGetKey "test-revocation-id"]
       (mkService {[ "test-revocation-id" := revokedRecord ]}
          (clock.Date 2023 6 24 0 0 0)))
  !! "test-revocation-id" = Some revokedRecord ∧
  (∀ t, GetKey
          (RevokeKey Idempotent
             (mkService
                (records (mkService {[ "test-revocation-id" := revokedRecord ]}
                            (clock.Date 2023 6 24 0 0 0))) t)
             "test-revocation-id").1 "test-revocation-id"
        = (Some (mkGetKeyResponse [x01; x02; x03] true "2023-06-23T00:00:00Z"), None)).
Proof.
  apply (revocation_terminal Idempotent
           (mkService {[ "test-revocation-id" := revokedRecord ]}
              (clock.Date 2023 6 24 0 0 0))
           "test-revocation-id" revokedRecord).
  - vm_compute. reflexivity.
  - reflexivity.
Defined.

End keystore.
